(** * C-Hero-Calc, [inputProcessing.cpp]: a model of the input and replay code

    The file follows [src/inputProcessing.cpp] function by function:
    the string helpers ([toLower], [split]), the query loop of the
    [IOManager] ([getResistantInput]) with the two commands built on it
    ([takeHerolevelInput], [takeInstanceInput]), the lineup parser
    ([makeInstanceFromString], [makeArmyFromStrings], [parseHeroString])
    and the replay encoder ([makeBattleReplay] and its helpers).

    Conventions.
    - A C++ call either returns, throws a [std::exception], has undefined
      behaviour, or does not come back; [result] has one constructor for
      each.  Loops without a structural bound carry a fuel argument and
      answer [OutOfFuel] when it is used up.  The one loop that grows a
      vector without bound, the loop of [split] for the empty separator,
      is left by the [std::bad_alloc] of the vector.
    - Text is [string]; a position in a string is a [nat] and
      [std::string::npos] is [None].
    - [int] and [int8_t] values are [Z], with the narrowing conversions
      written out. *)

From Stdlib Require Import ZArith String Ascii List Lia Bool DecimalString.
From stdpp Require Import base gmap strings list.

(** ** Outcomes of a call *)

Inductive exception : Type :=
| invalid_argument
| out_of_range
| bad_alloc.

Inductive result (A : Type) : Type :=
| Returns (a : A)
| Throws (e : exception)
| Undefined
| OutOfFuel.

Arguments Returns {A} a.
Arguments Throws {A} e.
Arguments Undefined {A}.
Arguments OutOfFuel {A}.

Definition result_bind {A B : Type} (r : result A) (k : A → result B) : result B :=
  match r with
  | Returns a => k a
  | Throws e => Throws e
  | Undefined => Undefined
  | OutOfFuel => OutOfFuel
  end.

Notation "'let*' x := r 'in' k" := (result_bind r (fun x => k))
  (at level 10, x pattern, r at level 100, k at level 200).

(** ** The standard library calls the file relies on *)

Module Std.

(** [target.find(separator, start)]: the first position at or after
    [start] where [separator] occurs, [None] for [npos]. *)
Definition find (target separator : string) (start : nat) : option nat :=
  String.index start separator target.

(** A [size_t] difference [a - b] that is handed to [substr] as a count.
    When [a] is [npos], or when the subtraction wraps around, the count
    is larger than any string and [substr] reads up to the end: [None]. *)
Definition count_sub (a : option nat) (b : nat) : option nat :=
  match a with
  | Some a => if a <? b then None else Some (a - b)
  | None => None
  end.

(** [s.substr(pos, count)]: throws [out_of_range] when [pos] is past the
    end, and stops at the end of [s] otherwise. *)
Definition substr (s : string) (pos : nat) (count : option nat) : result string :=
  if String.length s <? pos then Throws out_of_range
  else Returns (substring pos (default (String.length s - pos) count) s).

(** [v[0]] on a vector: reading an empty vector is undefined. *)
Definition front {A : Type} (v : list A) : result A :=
  match v with
  | x :: _ => Returns x
  | [] => Undefined
  end.

(** [std::tolower(c, std::locale())] in the classic locale. *)
Definition tolower (c : ascii) : ascii :=
  let n := nat_of_ascii c in
  if (65 <=? n) && (n <=? 90) then ascii_of_nat (n + 32) else c.

(** [isspace] in the classic locale: space, and tab to carriage return. *)
Definition isspace (c : ascii) : bool :=
  let n := nat_of_ascii c in
  (n =? 32) || ((9 <=? n) && (n <=? 13)).

Definition digit (c : ascii) : option Z :=
  let n := nat_of_ascii c in
  if (48 <=? n) && (n <=? 57) then Some (Z.of_nat (n - 48)) else None.

Fixpoint skip_spaces (s : string) : string :=
  match s with
  | String c s' => if isspace c then skip_spaces s' else s
  | EmptyString => s
  end.

(** The digits at the front of [s], up to the first other character. *)
Fixpoint leading_digits (s : string) : list Z :=
  match s with
  | String c s' =>
      match digit c with
      | Some d => d :: leading_digits s'
      | None => []
      end
  | EmptyString => []
  end.

Definition decimal_value (ds : list Z) : Z :=
  fold_left (fun acc d => 10 * acc + d)%Z ds 0%Z.

Definition INT_MIN : Z := (- 2 ^ 31)%Z.
Definition INT_MAX : Z := (2 ^ 31 - 1)%Z.

(** [std::stoi(s)], base 10: white space is skipped, one sign is read,
    then the longest run of digits; what follows the digits is ignored.
    No digit: [invalid_argument]; a value outside [int]: [out_of_range]. *)
Definition stoi (s : string) : result Z :=
  let s1 := skip_spaces s in
  let '(negative, s2) :=
    match s1 with
    | String "-" t => (true, t)
    | String "+" t => (false, t)
    | _ => (false, s1)
    end in
  match leading_digits s2 with
  | [] => Throws invalid_argument
  | ds =>
      let magnitude := decimal_value ds in
      let value := if negative then (- magnitude)%Z else magnitude in
      if (INT_MIN <=? value)%Z && (value <=? INT_MAX)%Z
      then Returns value
      else Throws out_of_range
  end.

(** [std::to_string] on an [int]. *)
Definition to_string (z : Z) : string :=
  NilZero.string_of_int (Z.to_int z).

(** Conversion to [int8_t]: the low eight bits, read as a signed value. *)
Definition to_int8 (z : Z) : Z :=
  ((z + 128) mod 256 - 128)%Z.

End Std.

(** ** [split] and [toLower] (lines 361 to 384) *)

(** The [while] loop of [split].  [occurrence] starts at 0, so the body
    runs at least once; afterwards the loop stops as soon as [find]
    answered [npos].  The assignment to [start] after that last [find]
    is never read.

    With the empty separator and [start] at 0, where [split] starts,
    [find] answers 0: the round pushes an empty piece and leaves [start]
    at 0, so every round is the same and the loop is left only when the
    vector cannot grow any more, by the [std::bad_alloc] of [push_back].
    The model keeps no account of the memory; it gives that outcome when
    the rounds it was allowed are used up. *)
Fixpoint split_loop (fuel : nat) (target separator : string)
    (start : nat) (output : list string) : result (list string) :=
  match fuel with
  | O =>
      if String.eqb separator "" && (start =? 0)
      then Throws bad_alloc
      else OutOfFuel
  | S fuel' =>
      let occurrence := Std.find target separator start in
      let* substring := Std.substr target start (Std.count_sub occurrence start) in
      let output' :=
        if (start =? 0) || (0 <? String.length substring)
        then output ++ [substring]
        else output in
      match occurrence with
      | None => Returns output'
      | Some occ => split_loop fuel' target separator (occ + String.length separator) output'
      end
  end.

(** Every round but the last moves [start] forward when the separator is
    not empty, so one round per character and one more is enough; with
    the empty separator the call ends with [std::bad_alloc]. *)
Definition split (target separator : string) : result (list string) :=
  split_loop (S (String.length target)) target separator 0 [].

Fixpoint toLower (input : string) : string :=
  match input with
  | String c rest => String (Std.tolower c) (toLower rest)
  | EmptyString => EmptyString
  end.

(** ** Declarations the file takes from its headers *)

(** Modelled from the spec: the rarity tag of a unit is declared in a
    header that is not part of the sources at hand.  One value, [NO_HERO],
    marks the units that are not heroes; the other values are tags of
    heroes and are not told apart here. *)
Inductive HeroRarity : Type :=
| NO_HERO
| HERO_RARITY (tag : nat).

Definition is_hero (r : HeroRarity) : bool :=
  match r with
  | NO_HERO => false
  | HERO_RARITY _ => true
  end.

(** Modelled from the spec: a unit has a stable [name], a [baseName]
    shared by the level variants of a hero, a [rarity] and a [level].
    The combat attributes are not read by [inputProcessing.cpp]. *)
Record Monster : Type := {
  name : string;
  baseName : string;
  rarity : HeroRarity;
  level : Z
}.

(** Modelled from the spec: an army is the sequence of its units in
    insertion order, each unit an [int8_t] index into [monsterReference],
    with [monsterAmount] their count; [add] puts a unit behind the others.
    Slots past [monsterAmount] carry no meaning and are not kept.  An
    army holds at most [capacity] units, [ARMY_MAX_SIZE] in every call of
    the file; the callers (lines 227 and 229) do not check the count, and
    a unit added to a full army has no slot to go to: [Undefined]. *)
Record Army : Type := {
  monsters : list Z
}.

Definition monsterAmount (army : Army) : Z :=
  Z.of_nat (length (monsters army)).

Definition Army_empty : Army := {| monsters := [] |}.

Definition Army_add (capacity : nat) (army : Army) (m : Z) : result Army :=
  if length (monsters army) <? capacity
  then Returns {| monsters := monsters army ++ [m] |}
  else Undefined.

(** The fields of [Instance] that [makeInstanceFromString] fills. *)
Record Instance : Type := {
  target : Army;
  maxCombatants : Z;
  targetSize : Z
}.

Inductive QueryType : Type :=
| question
| integer
| raw
| rawFirst.

(** The constants of the headers, and [base64_encode], which is defined
    in another file.  None of them is part of the sources at hand, so the
    model takes them as parameters. *)
Class Constants : Type := {
  COMMENT_DELIMITOR : string;
  TOKEN_SEPARATOR : string;
  POSITIVE_ANSWER : string;
  NEGATIVE_ANSWER : string;
  QUEST_PREFIX : string;
  QUEST_NUMBER_SEPARTOR : string;
  ELEMENT_SEPARATOR : string;
  HEROLEVEL_SEPARATOR : string;
  ARMY_MAX_SIZE : nat;
  TOURNAMENT_LINES : nat;
  REPLAY_EMPTY_SPOT : Z;
  heroInputHelp : string;
  lineupInputHelp : string;
  base64_encode : string → string
}.

(** The read-only tables: the hero templates, the canonical list of
    ordinary monsters, the quests (a vector of lineups, indexed by quest
    number) and the map from a monster name to its index. *)
Class Databases : Type := {
  baseHeroes : list Monster;
  monsterBaseList : list Monster;
  quests : list (list string);
  monsterMap : gmap string Z
}.

(** ** Streams and the state of the process *)

(** An input stream: the lines that end in a line break and are still to
    be read, the characters after the last line break, and two of the
    state bits. *)
Record istream : Type := {
  pending : list string;
  partial : string;
  eofbit : bool;
  failbit : bool
}.

Definition good (s : istream) : bool :=
  negb (eofbit s) && negb (failbit s).

(** [(bool) getline(stream, str)]: the answer, the stream afterwards and
    the new content of [str].  On a stream that is not [good] nothing is
    read, [str] is left alone and [failbit] is set.  Otherwise [str] is
    erased and filled up to the next line break; running into the end
    sets [eofbit], and [failbit] too when no character was read. *)
Definition getline (stream : istream) (str : string) : bool * istream * string :=
  if negb (good stream) then
    (false,
     {| pending := pending stream; partial := partial stream;
        eofbit := eofbit stream; failbit := true |},
     str)
  else
    match pending stream with
    | line :: lines =>
        (true,
         {| pending := lines; partial := partial stream;
            eofbit := false; failbit := false |},
         line)
    | [] =>
        if String.eqb (partial stream) "" then
          (false,
           {| pending := []; partial := ""; eofbit := true; failbit := true |},
           "")
        else
          (true,
           {| pending := []; partial := ""; eofbit := true; failbit := false |},
           partial stream)
    end.

(** What a call can read and change: the three fields of the [IOManager]
    that the input code uses, the console, the registry of units
    [monsterReference] (the hero parser appends to it) and the reading of
    the clock. *)
Record World : Type := {
  useMacroFile : bool;
  showQueries : bool;
  macroFile : istream;
  cin : istream;
  cout : list string;
  monsterReference : list Monster;
  clock : Z
}.

Definition set_useMacroFile (b : bool) (w : World) : World :=
  {| useMacroFile := b; showQueries := showQueries w; macroFile := macroFile w;
     cin := cin w; cout := cout w; monsterReference := monsterReference w;
     clock := clock w |}.

Definition set_macroFile (file : istream) (w : World) : World :=
  {| useMacroFile := useMacroFile w; showQueries := showQueries w; macroFile := file;
     cin := cin w; cout := cout w; monsterReference := monsterReference w;
     clock := clock w |}.

Definition set_cin (console : istream) (w : World) : World :=
  {| useMacroFile := useMacroFile w; showQueries := showQueries w;
     macroFile := macroFile w; cin := console; cout := cout w;
     monsterReference := monsterReference w; clock := clock w |}.

Definition set_monsterReference (reference : list Monster) (w : World) : World :=
  {| useMacroFile := useMacroFile w; showQueries := showQueries w;
     macroFile := macroFile w; cin := cin w; cout := cout w;
     monsterReference := reference; clock := clock w |}.

(** [cout << text] *)
Definition print (text : string) (w : World) : World :=
  {| useMacroFile := useMacroFile w; showQueries := showQueries w;
     macroFile := macroFile w; cin := cin w; cout := cout w ++ [text];
     monsterReference := monsterReference w; clock := clock w |}.

Definition endl : string := String (ascii_of_nat 10) EmptyString.

(** A call that works on the state of the process.  The state survives an
    exception: what was printed or registered before the [throw] stays. *)
Definition M (A : Type) : Type := World → result A * World.

Definition M_ret {A : Type} (a : A) : M A :=
  fun w => (Returns a, w).

Definition M_bind {A B : Type} (m : M A) (k : A → M B) : M B :=
  fun w =>
    match m w with
    | (Returns a, w') => k a w'
    | (Throws e, w') => (Throws e, w')
    | (Undefined, w') => (Undefined, w')
    | (OutOfFuel, w') => (OutOfFuel, w')
    end.

Definition lift {A : Type} (r : result A) : M A :=
  fun w => (r, w).

(** [try { body } catch (const exception & e) { handler }] *)
Definition M_catch {A : Type} (body handler : M A) : M A :=
  fun w =>
    match body w with
    | (Throws _, w') => handler w'
    | other => other
    end.

Notation "'do' x <- m 'in' k" := (M_bind m (fun x => k))
  (at level 10, x pattern, m at level 100, k at level 200).

(** ** The query loop (lines 90 to 134) *)

Section QueryLoop.
Context `{Constants}.

(** Line 109 and line 110: the line in lower case up to the comment
    delimiter, and its first token. *)
Definition normalize (line : string) : result (string * string) :=
  let* uncommented := split (toLower line) COMMENT_DELIMITOR in
  let* inputString := Std.front uncommented in
  let* tokens := split inputString TOKEN_SEPARATOR in
  let* firstToken := Std.front tokens in
  Returns (inputString, firstToken).

(** Lines 117 to 131, reached when the first token is not [help]: the
    answer the call returns, or [None] when the loop goes round again. *)
Definition answer (queryType : QueryType) (inputString firstToken : string)
    : option string :=
  match queryType with
  | question =>
      if String.eqb firstToken POSITIVE_ANSWER || String.eqb firstToken NEGATIVE_ANSWER
      then Some firstToken
      else None
  | integer =>
      match Std.stoi firstToken with
      | Returns _ => Some firstToken
      | _ => None
      end
  | raw => Some inputString
  | rawFirst => Some firstToken
  end.

(** Lines 96 to 106: where the next line comes from.  The result is the
    state afterwards and the content of [inputString]. *)
Definition read_line (query : string) (inputString : string) (w : World)
    : World * string :=
  let '(w, inputString) :=
    if useMacroFile w then
      let '(ok, file, line) := getline (macroFile w) inputString in
      (set_useMacroFile ok (set_macroFile file w), line)
    else (w, inputString) in
  let w := if negb (useMacroFile w) || showQueries w then print query w else w in
  if negb (useMacroFile w) then
    let '(_, console, line) := getline (cin w) inputString in
    (set_cin console w, line)
  else (w, inputString).

(** Lines 111 to 113: a line of a macro file that is shown. *)
Definition echo_line (inputString : string) (w : World) : World :=
  if useMacroFile w && showQueries w
  then print endl (print inputString w)
  else w.

(** One round of the [while (true)] loop.  The round ends the call with
    [Some] answer or is followed by another round; in both cases the
    content of the local [inputString] is handed on. *)
Definition getResistantInput_round (query help : string) (queryType : QueryType)
    (inputString : string) : M (option string * string) :=
  fun w =>
    let '(w, line) := read_line query inputString w in
    match normalize line with
    | Returns (inputString, firstToken) =>
        let w := echo_line inputString w in
        if String.eqb firstToken "help" then
          (Returns (None, inputString), print help w)
        else
          (Returns (answer queryType inputString firstToken, inputString), w)
    | Throws e => (Throws e, w)
    | Undefined => (Undefined, w)
    | OutOfFuel => (OutOfFuel, w)
    end.

Fixpoint getResistantInput_loop (fuel : nat) (query help : string)
    (queryType : QueryType) (inputString : string) : M string :=
  match fuel with
  | O => fun w => (OutOfFuel, w)
  | S fuel' =>
      do (reply, inputString) <- getResistantInput_round query help queryType inputString in
      match reply with
      | Some text => M_ret text
      | None => getResistantInput_loop fuel' query help queryType inputString
      end
  end.

Definition getResistantInput (fuel : nat) (query help : string)
    (queryType : QueryType) : M string :=
  getResistantInput_loop fuel query help queryType "".

(** A session: the queries asked one after the other. *)
Fixpoint ask_all (fuel : nat) (queries : list (string * string * QueryType))
    : M (list string) :=
  match queries with
  | [] => M_ret []
  | (query, help, queryType) :: later =>
      do text <- getResistantInput fuel query help queryType in
      do texts <- ask_all fuel later in
      M_ret (text :: texts)
  end.

End QueryLoop.

(** ** The lineup parser (lines 201 to 247) and the two commands *)

Section Parser.
Context `{Constants} `{Databases}.

(** [find(...) + 1] on a [size_t]: [npos + 1] wraps around to 0. *)
Definition position_after (position : option nat) : nat :=
  match position with
  | Some p => p + 1
  | None => 0
  end.

(** [parseHeroString] (lines 236 to 247).  The name is cut off first, then
    the level is parsed, and only then the templates are searched. *)
Definition parseHeroString (heroString : string) : result (Monster * Z) :=
  let separator := Std.find heroString HEROLEVEL_SEPARATOR 0 in
  let* heroName := Std.substr heroString 0 separator in
  let* levelText := Std.substr heroString (position_after separator) None in
  let* heroLevel := Std.stoi levelText in
  match List.find (fun hero => String.eqb (baseName hero) heroName) baseHeroes with
  | Some hero => Returns (hero, heroLevel)
  | None => Throws out_of_range
  end.

(** Modelled from the spec: [addLeveledHero] is defined in a file that is
    not part of the sources at hand.  It yields the index of the hero at
    the asked level in [monsterReference]; asking for the same base name
    and level again yields the unit registered before, and a unit is
    appended only when there is none.  The index is an [int8_t]. *)
Definition addLeveledHero (hero : Monster) (heroLevel : Z) : M Z :=
  fun w =>
    let same (m : Monster) : bool :=
      is_hero (rarity m) && String.eqb (baseName m) (baseName hero)
      && Z.eqb (level m) heroLevel in
    match list_find (fun m => same m = true) (monsterReference w) with
    | Some (i, _) => (Returns (Std.to_int8 (Z.of_nat i)), w)
    | None =>
        let leveled :=
          {| name := name hero; baseName := baseName hero;
             rarity := rarity hero; level := heroLevel |} in
        (Returns (Std.to_int8 (Z.of_nat (length (monsterReference w)))),
         set_monsterReference (monsterReference w ++ [leveled]) w)
    end.

(** The [for] loop of [makeArmyFromStrings] (lines 224 to 231);
    [monsterMap.at] throws [out_of_range] on a name it does not hold. *)
Fixpoint makeArmyFromStrings_loop (stringMonsters : list string) (army : Army)
    : M Army :=
  match stringMonsters with
  | [] => M_ret army
  | stringMonster :: rest =>
      do unit <-
        (match Std.find stringMonster HEROLEVEL_SEPARATOR 0 with
         | Some _ =>
             do heroData <- lift (parseHeroString stringMonster) in
             addLeveledHero (fst heroData) (snd heroData)
         | None =>
             match monsterMap !! stringMonster with
             | Some index => M_ret index
             | None => lift (Throws out_of_range)
             end
         end) in
      do army' <- lift (Army_add ARMY_MAX_SIZE army unit) in
      makeArmyFromStrings_loop rest army'
  end.

Definition makeArmyFromStrings (stringMonsters : list string) : M Army :=
  makeArmyFromStrings_loop stringMonsters Army_empty.

(** [quests[questNumber]]: the vector is read without a check, so a
    number outside of it is undefined. *)
Definition quests_at (questNumber : Z) : result (list string) :=
  if (questNumber <? 0)%Z then Undefined
  else match quests !! Z.to_nat questNumber with
       | Some lineup => Returns lineup
       | None => Undefined
       end.

(** [makeInstanceFromString] (lines 202 to 217).  [dashPosition] is an
    [int]: for a string of fewer than [2 ^ 31] characters the conversion
    keeps a position and turns [npos] into -1, and the arithmetic of
    lines 207 and 209 turns it back, so that [dashPosition - length] is
    the [size_t] difference and [dashPosition + 1] is 0 for [npos].  The
    tier is read from one character: [substr(dashPosition + 1, 1)]. *)
Definition makeInstanceFromString (instanceString : string) : M Instance :=
  let dashPosition := Std.find instanceString QUEST_NUMBER_SEPARTOR 0 in
  do (army, combatants) <-
    (if String.eqb (substring 0 (String.length QUEST_PREFIX) instanceString) QUEST_PREFIX
     then
       do questText <-
         lift (Std.substr instanceString (String.length QUEST_PREFIX)
                 (Std.count_sub dashPosition (String.length QUEST_PREFIX))) in
       do questNumber <- lift (Std.stoi questText) in
       do lineup <- lift (quests_at questNumber) in
       do army <- makeArmyFromStrings lineup in
       do tierText <-
         lift (Std.substr instanceString (position_after dashPosition) (Some 1)) in
       do tier <- lift (Std.stoi tierText) in
       M_ret (army, (Z.of_nat ARMY_MAX_SIZE - (tier - 1))%Z)
     else
       do stringLineup <- lift (split instanceString ELEMENT_SEPARATOR) in
       do army <- makeArmyFromStrings stringLineup in
       M_ret (army, Z.of_nat ARMY_MAX_SIZE)) in
  M_ret {| target := army; maxCombatants := combatants;
           targetSize := monsterAmount army |}.

(** One round of the [do] loop of [takeHerolevelInput] after the query
    was answered (lines 167 to 175): the heroes and the counter
    afterwards. *)
Definition takeHerolevelInput_entry (input : string) (heroes : list Z)
    (cancelCounter : Z) : M (list Z * Z) :=
  if String.eqb input "" then M_ret (heroes, (cancelCounter + 1)%Z)
  else
    M_catch
      (do heroData <- lift (parseHeroString input) in
       do hero <- addLeveledHero (fst heroData) (snd heroData) in
       M_ret (heroes ++ [hero], 0%Z))
      (M_ret (heroes, 0%Z)).

Fixpoint takeHerolevelInput_loop (fuel : nat) (heroes : list Z) (cancelCounter : Z)
    : M (list Z) :=
  match fuel with
  | O => lift OutOfFuel
  | S fuel' =>
      do input <-
        getResistantInput fuel'
          ("Enter Hero " +:+ Std.to_string (Z.of_nat (length heroes + 1)) +:+ ": ")
          heroInputHelp rawFirst in
      do (heroes, cancelCounter) <- takeHerolevelInput_entry input heroes cancelCounter in
      if negb (String.eqb input "done") && (cancelCounter <? 2)%Z
      then takeHerolevelInput_loop fuel' heroes cancelCounter
      else M_ret heroes
  end.

(** [takeHerolevelInput] (lines 155 to 179). *)
Definition takeHerolevelInput (fuel : nat) : M (list Z) :=
  fun w =>
    let w :=
      if negb (useMacroFile w) || showQueries w then
        print endl
          (print "Press enter twice or type done to proceed without inputting additional Heroes."
             (print endl
                (print "Enter your Heroes with levels. Press enter after every Hero."
                   (print endl w))))
      else w in
    takeHerolevelInput_loop fuel [] 0%Z w.

(** The [for] loop of [takeInstanceInput] (lines 193 to 195). *)
Fixpoint takeInstanceInput_parse (instanceStrings : list string)
    (instances : list Instance) : M (list Instance) :=
  match instanceStrings with
  | [] => M_ret instances
  | instanceString :: rest =>
      do instance <- makeInstanceFromString instanceString in
      takeInstanceInput_parse rest (instances ++ [instance])
  end.

(** [takeInstanceInput] (lines 182 to 199): the vector is returned from
    inside the [try] block, after the last token; an exception ends the
    block and the loop asks again. *)
Fixpoint takeInstanceInput (fuel : nat) (prompt : string) : M (list Instance) :=
  match fuel with
  | O => lift OutOfFuel
  | S fuel' =>
      do input <- getResistantInput fuel' prompt lineupInputHelp raw in
      do instanceStrings <- lift (split input TOKEN_SEPARATOR) in
      M_catch (takeInstanceInput_parse instanceStrings [])
              (takeInstanceInput fuel' prompt)
  end.

End Parser.

(** ** The replay encoder (lines 249 to 328) *)

Section Replay.
Context `{Constants} `{Databases}.

(** [monsterReference[index]] with an [int8_t] index: undefined outside
    of the vector. *)
Definition monsterReference_at (w : World) (index : Z) : result Monster :=
  if (index <? 0)%Z then Undefined
  else match monsterReference w !! Z.to_nat index with
       | Some monster => Returns monster
       | None => Undefined
       end.

(** The two [for] loops of [getReplayMonsterNumber] have one shape: they
    walk a table from position [i] on and overwrite [index] at every
    entry that matches, so the last match stays. *)
Fixpoint replay_scan (matches : Monster → bool) (encode : nat → Z)
    (table : list Monster) (i : nat) (index : Z) : Z :=
  match table with
  | [] => index
  | entry :: rest =>
      replay_scan matches encode rest (S i)
        (if matches entry then encode i else index)
  end.

(** [getReplayMonsterNumber] (lines 287 to 304).  [index] is an [int8_t];
    [-i - 2] is computed on a [size_t] and narrowed, which keeps the low
    eight bits of the integer [-(i + 2)]. *)
Definition getReplayMonsterNumber (monster : Monster) : string :=
  let index := Std.to_int8 REPLAY_EMPTY_SPOT in
  let index :=
    if is_hero (rarity monster) then
      replay_scan (fun hero => String.eqb (baseName hero) (baseName monster))
        (fun i => Std.to_int8 (- Z.of_nat i - 2)) baseHeroes 0 index
    else
      replay_scan (fun entry => String.eqb (name monster) (name entry))
        (fun i => Std.to_int8 (Z.of_nat i)) monsterBaseList 0 index in
  Std.to_string index.

(** The text one slot of the setup contributes (lines 273 to 277). *)
Definition getReplaySetup_slot (setup : Army) (i : nat) (w : World) : result string :=
  let column := i mod ARMY_MAX_SIZE in
  if (Z.of_nat column <? monsterAmount setup)%Z then
    let place := Z.to_nat (monsterAmount setup - Z.of_nat column - 1) in
    match monsters setup !! place with
    | Some index =>
        let* monster := monsterReference_at w index in
        Returns (getReplayMonsterNumber monster)
    | None => Undefined
    end
  else Returns (Std.to_string REPLAY_EMPTY_SPOT).

(** The [for] loop of [getReplaySetup]: [remaining] slots are left, the
    next one is slot [i]. *)
Fixpoint getReplaySetup_loop (remaining i : nat) (setup : Army)
    (stringSetup : string) (w : World) : result string :=
  match remaining with
  | O => Returns stringSetup
  | S remaining' =>
      let* slot := getReplaySetup_slot setup i w in
      let stringSetup := stringSetup +:+ slot in
      let stringSetup :=
        if i <? ARMY_MAX_SIZE * TOURNAMENT_LINES - 1
        then stringSetup +:+ ","
        else stringSetup in
      getReplaySetup_loop remaining' (S i) setup stringSetup w
  end.

(** [getReplaySetup] (lines 268 to 284). *)
Definition getReplaySetup (setup : Army) (w : World) : result string :=
  let* stringSetup :=
    getReplaySetup_loop (ARMY_MAX_SIZE * TOURNAMENT_LINES) 0 setup "[" w in
  Returns (stringSetup +:+ "]").

(** The inner loop of [getReplayHeroes] (lines 314 to 320) over the units
    of the army from the front: the level of the first unit that is a
    hero of the given base name, else the 0 that [level] was set to. *)
Fixpoint getReplayHeroes_level (units : list Z) (hero : Monster) (w : World)
    : result Z :=
  match units with
  | [] => Returns 0%Z
  | index :: rest =>
      let* monster := monsterReference_at w index in
      if is_hero (rarity monster) && String.eqb (baseName monster) (baseName hero)
      then Returns (level monster)
      else getReplayHeroes_level rest hero w
  end.

(** The outer loop of [getReplayHeroes] over the templates from position
    [i] on. *)
Fixpoint getReplayHeroes_loop (templates : list Monster) (i : nat) (setup : Army)
    (heroes : string) (w : World) : result string :=
  match templates with
  | [] => Returns heroes
  | hero :: rest =>
      let* heroLevel := getReplayHeroes_level (monsters setup) hero w in
      let heroes := heroes +:+ Std.to_string heroLevel in
      let heroes :=
        if i <? length baseHeroes - 1 then heroes +:+ "," else heroes in
      getReplayHeroes_loop rest (S i) setup heroes w
  end.

(** [getReplayHeroes] (lines 307 to 328). *)
Definition getReplayHeroes (setup : Army) (w : World) : result string :=
  let* heroes := getReplayHeroes_loop baseHeroes 0 setup "[" w in
  Returns (heroes +:+ "]").

Definition quoted (text : string) : string :=
  String (ascii_of_nat 34) text +:+ String (ascii_of_nat 34) EmptyString.

(** The object of [makeBattleReplay] before the encoding, with the text
    of the four computed fields given. *)
Definition replay_object (date : Z) (setup shero player phero : string) : string :=
  "{"
  +:+ quoted "winner" +:+ ":" +:+ quoted "Unknown" +:+ ","
  +:+ quoted "left" +:+ ":" +:+ quoted "Solution" +:+ ","
  +:+ quoted "right" +:+ ":" +:+ quoted "Instance" +:+ ","
  +:+ quoted "date" +:+ ":" +:+ Std.to_string date +:+ ","
  +:+ quoted "title" +:+ ":" +:+ quoted "Proposed Solution" +:+ ","
  +:+ quoted "setup" +:+ ":" +:+ setup +:+ ","
  +:+ quoted "shero" +:+ ":" +:+ shero +:+ ","
  +:+ quoted "player" +:+ ":" +:+ player +:+ ","
  +:+ quoted "phero" +:+ ":" +:+ phero
  +:+ "}".

(** [makeBattleReplay] (lines 250 to 265); [time(NULL)] is the reading of
    the clock. *)
Definition makeBattleReplay (friendly hostile : Army) (w : World) : result string :=
  let* setup := getReplaySetup friendly w in
  let* shero := getReplayHeroes friendly w in
  let* player := getReplaySetup hostile w in
  let* phero := getReplayHeroes hostile w in
  Returns (base64_encode (replay_object (clock w) setup shero player phero)).

End Replay.

(** ** The statements of the specification, in its own words *)

(** The integer check as the specification words it: the whole token is a
    base-10 numeral, an optional sign followed by digits only, at least
    one of them. *)
Definition whole_token_numeric (token : string) : bool :=
  let digits :=
    match token with
    | String "-" t => t
    | String "+" t => t
    | _ => token
    end in
  negb (String.eqb digits "")
  && forallb (fun c => bool_decide (is_Some (Std.digit c))) (list_ascii_of_string digits).

(** An array in the text of a replay: the entries between brackets, with
    commas in between. *)
Fixpoint comma_separated (texts : list string) : string :=
  match texts with
  | [] => ""
  | [text] => text
  | text :: rest => text +:+ "," +:+ comma_separated rest
  end.

Definition array_text (entries : list Z) : string :=
  "[" +:+ comma_separated (map Std.to_string entries) +:+ "]".

Section ReplaySpec.
Context `{Constants} `{Databases}.

(** The units behind the indices of an army. *)
Definition resolves (w : World) (setup : Army) (units : list Monster) : Prop :=
  Forall2 (fun index unit => monsterReference_at w index = Returns unit)
    (monsters setup) units.

(** The code of a unit in the replay format: the position of an ordinary
    unit in the canonical monster list, and [-(k + 2)] for a hero whose
    base name is at position [k] of the hero templates, whatever its
    level.  [None] when the unit is in neither table. *)
Definition spec_unit_code (unit : Monster) : option Z :=
  if is_hero (rarity unit) then
    (fun found => (- (Z.of_nat (fst found) + 2))%Z)
      <$> list_find (fun hero => baseName hero = baseName unit) baseHeroes
  else
    (fun found => Z.of_nat (fst found))
      <$> list_find (fun entry => name entry = name unit) monsterBaseList.

(** The unit is named by one entry of its table and no other, the one at
    position [k]: a hero by the base name of a hero template, an ordinary
    unit by the name of an entry of the canonical monster list. *)
Definition named_once_at (unit : Monster) (k : nat) : Prop :=
  if is_hero (rarity unit) then
    (∃ hero, baseHeroes !! k = Some hero ∧ baseName hero = baseName unit)
    ∧ ∀ j hero, baseHeroes !! j = Some hero → baseName hero = baseName unit → j = k
  else
    (∃ entry, monsterBaseList !! k = Some entry ∧ name entry = name unit)
    ∧ ∀ j entry, monsterBaseList !! j = Some entry → name entry = name unit → j = k.

(** The codes that an [int8_t] holds as they are: a hero template up to
    position 126, a canonical monster up to position 127. *)
Definition code_fits (unit : Monster) (k : nat) : Prop :=
  if is_hero (rarity unit) then k ≤ 126 else k ≤ 127.

(** Slot [i] of the setup: in the columns below the unit count the unit at
    position [unitCount - (i mod ARMY_MAX_SIZE) - 1], the sentinel in the
    other columns. *)
Definition spec_slot (units : list Monster) (i : nat) : option Z :=
  let column := i mod ARMY_MAX_SIZE in
  if column <? length units then
    units !! (length units - column - 1) ≫= spec_unit_code
  else Some REPLAY_EMPTY_SPOT.

Definition spec_setup (units : list Monster) : list (option Z) :=
  map (spec_slot units) (seq 0 (ARMY_MAX_SIZE * TOURNAMENT_LINES)).

(** The entry of a hero template in [shero] and [phero]: the level of the
    first unit of the army that is a hero of that base name, 0 when there
    is none. *)
Definition spec_hero_level (units : list Monster) (hero : Monster) : Z :=
  match List.find
          (fun unit => is_hero (rarity unit) && String.eqb (baseName unit) (baseName hero))
          units with
  | Some unit => level unit
  | None => 0%Z
  end.

Definition spec_heroes (units : list Monster) : list Z :=
  map (spec_hero_level units) baseHeroes.

End ReplaySpec.

Section ParserSpec.
Context `{Constants} `{Databases}.

(** Every token of a line gives its instance, one token after the other:
    the state one token leaves is the state the next token starts from. *)
Inductive parsed_in_turn : list string → World → list Instance → World → Prop :=
| parsed_nil (w : World) : parsed_in_turn [] w [] w
| parsed_cons (token : string) (tokens : list string) (w w1 w2 : World)
    (instance : Instance) (instances : list Instance) :
    makeInstanceFromString token w = (Returns instance, w1) →
    parsed_in_turn tokens w1 instances w2 →
    parsed_in_turn (token :: tokens) w (instance :: instances) w2.




End ParserSpec.



(** ** Sample data *)

Module Sample.

(** Modelled from the spec: [base64_encode] is defined in a file that is
    not part of the sources at hand; this is the standard encoding with
    padding. *)
Definition base64_digit (n : N) : ascii :=
  match String.get (N.to_nat n)
          "ABCDEFGHIJKLMNOPQRSTUVWXYZabcdefghijklmnopqrstuvwxyz0123456789+/" with
  | Some c => c
  | None => "="%char
  end.

Fixpoint base64_groups (bytes : list N) : string :=
  match bytes with
  | a :: b :: c :: rest =>
      let n := (a * 65536 + b * 256 + c)%N in
      String (base64_digit (n / 262144))
        (String (base64_digit (n / 4096 mod 64))
           (String (base64_digit (n / 64 mod 64))
              (String (base64_digit (n mod 64)) (base64_groups rest))))
  | [a; b] =>
      let n := (a * 65536 + b * 256)%N in
      String (base64_digit (n / 262144))
        (String (base64_digit (n / 4096 mod 64))
           (String (base64_digit (n / 64 mod 64)) "="))
  | [a] =>
      let n := (a * 65536)%N in
      String (base64_digit (n / 262144))
        (String (base64_digit (n / 4096 mod 64)) "==")
  | [] => ""
  end.

Definition base64 (text : string) : string :=
  base64_groups (map N_of_ascii (list_ascii_of_string text)).

(** Modelled from the spec: the values of the constants are set in a
    header that is not part of the sources at hand.  The separators are
    the ones that the grammar and the examples of the specification show
    (a blank between tokens, a comma between units, a colon before a
    level, [q] and a dash in a quest reference); the specification leaves
    the comment delimiter, the two answers, the help texts and the sizes
    open, and the values here are samples: five lines of six slots, with
    -1 for an empty slot. *)
Definition constants : Constants := {|
  COMMENT_DELIMITOR := "//";
  TOKEN_SEPARATOR := " ";
  POSITIVE_ANSWER := "y";
  NEGATIVE_ANSWER := "n";
  QUEST_PREFIX := "q";
  QUEST_NUMBER_SEPARTOR := "-";
  ELEMENT_SEPARATOR := ",";
  HEROLEVEL_SEPARATOR := ":";
  ARMY_MAX_SIZE := 6;
  TOURNAMENT_LINES := 5;
  REPLAY_EMPTY_SPOT := (-1)%Z;
  heroInputHelp := "name:level";
  lineupInputHelp := "lineup";
  base64_encode := base64
|}.

Definition panda : Monster :=
  {| name := "panda"; baseName := "panda"; rarity := NO_HERO; level := 0%Z |}.

Definition wolf : Monster :=
  {| name := "wolf"; baseName := "wolf"; rarity := NO_HERO; level := 0%Z |}.

Definition hero1 : Monster :=
  {| name := "hero1"; baseName := "hero1"; rarity := HERO_RARITY 0; level := 1%Z |}.

Definition hero2 : Monster :=
  {| name := "hero2"; baseName := "hero2"; rarity := HERO_RARITY 1; level := 1%Z |}.

(** Sample tables: two monsters, two hero templates and four quests, of
    which quest 3 is the lineup of a panda and a wolf. *)
Definition databases : Databases := {|
  baseHeroes := [hero1; hero2];
  monsterBaseList := [panda; wolf];
  quests := [["wolf"]; ["panda"]; ["wolf"; "wolf"]; ["panda"; "wolf"]];
  monsterMap := <["panda" := 0%Z]> (<["wolf" := 1%Z]> ∅)
|}.

(** A table of 128 hero templates, [h0] to [h127]. *)
Definition template (i : nat) : Monster :=
  {| name := "h" +:+ Std.to_string (Z.of_nat i);
     baseName := "h" +:+ Std.to_string (Z.of_nat i);
     rarity := HERO_RARITY 0; level := 1%Z |}.

Definition crowded : Databases := {|
  baseHeroes := map template (seq 0 128);
  monsterBaseList := [panda; wolf];
  quests := [];
  monsterMap := ∅
|}.

Definition console (lines : list string) : istream :=
  {| pending := lines; partial := ""; eofbit := false; failbit := false |}.

Definition closed : istream :=
  {| pending := []; partial := ""; eofbit := false; failbit := true |}.

(** A process that reads the console, with the two monsters registered. *)
Definition interactive (lines : list string) : World :=
  {| useMacroFile := false; showQueries := true; macroFile := closed;
     cin := console lines; cout := [];
     monsterReference := [panda; wolf]; clock := 1500000000%Z |}.

(** A process that runs a macro file without showing it. *)
Definition scripted (script lines : list string) : World :=
  {| useMacroFile := true; showQueries := false; macroFile := console script;
     cin := console lines; cout := [];
     monsterReference := [panda; wolf]; clock := 1500000000%Z |}.

End Sample.

(** ** The remaining methods of the [IOManager] (lines 5 to 88 and 136 to 152) *)

(** Line 6. *)
Definition FINISH_MESSAGE_LENGTH : nat := 20.

(** The constants of the headers that the output methods use.  The
    output levels are the values of an enumeration, compared as
    integers. *)
Class OutputConstants : Type := {
  INDENT_WIDTH : Z;
  STANDARD_CMD_WIDTH : Z;
  BASIC_OUTPUT : Z
}.

(** The fields of the [IOManager] that the output methods use. *)
Record Manager : Type := {
  outputLevel : Z;
  outputStream : string;
  lastTimedOutput : Z
}.

Definition set_showQueries (b : bool) (w : World) : World :=
  {| useMacroFile := useMacroFile w; showQueries := b; macroFile := macroFile w;
     cin := cin w; cout := cout w; monsterReference := monsterReference w;
     clock := clock w |}.

Definition set_outputStream (text : string) (this : Manager) : Manager :=
  {| outputLevel := outputLevel this; outputStream := text;
     lastTimedOutput := lastTimedOutput this |}.

Definition set_lastTimedOutput (time : Z) (this : Manager) : Manager :=
  {| outputLevel := outputLevel this; outputStream := outputStream this;
     lastTimedOutput := time |}.

Fixpoint spaces (n : nat) : string :=
  match n with
  | O => EmptyString
  | S n' => String " " (spaces n')
  end.

(** [stream << left << setw(width) << text]: blanks after the text up to
    the width; a text that is wider is written as it is. *)
Definition setw_left (width : Z) (text : string) : string :=
  text +:+ spaces (Z.to_nat (width - Z.of_nat (String.length text))).

(** [stream << right << setw(width) << text] *)
Definition setw_right (width : Z) (text : string) : string :=
  spaces (Z.to_nat (width - Z.of_nat (String.length text))) +:+ text.

Section OutputMethods.
Context `{Constants} `{OutputConstants}.

(** The constructor (lines 8 to 14); the macro file is a stream that was
    not opened. *)
Definition IOManager_new (w : World) : Manager * World :=
  ({| outputLevel := BASIC_OUTPUT; outputStream := ""; lastTimedOutput := (-1)%Z |},
   set_macroFile {| pending := []; partial := ""; eofbit := false; failbit := false |}
     (set_showQueries true (set_useMacroFile false w))).

(** [shouldOutput] (lines 16 to 18) *)
Definition shouldOutput (this : Manager) (urgency : Z) : bool :=
  (urgency <=? outputLevel this)%Z.

(** [initMacroFile] (lines 21 to 29).  [opened] is the stream as
    [open(macroFileName)] leaves it: the lines of the file, or a stream
    with [failbit] set when the file could not be opened. *)
Definition initMacroFile (opened : istream) (showInput : bool) (w : World) : World :=
  let w := set_macroFile opened w in
  let w := set_useMacroFile (good opened) w in
  let w := set_showQueries (good opened && showInput) w in
  if negb (good opened)
  then print endl (print "Could not find Macro File. Switching to Manual Input." w)
  else w.

(** [printBuffer] (lines 32 to 38) *)
Definition printBuffer (urgency : Z) (state : Manager * World) : Manager * World :=
  let '(this, w) := state in
  (set_outputStream "" this,
   if shouldOutput this urgency then print (outputStream this) w else w).

(** [getIndent] (lines 41 to 43): [string(indent * INDENT_WIDTH, ' ')].
    A negative count is a huge [size_t], for which the constructor
    throws: [None]. *)
Definition getIndent (indent : Z) : option string :=
  if (indent * INDENT_WIDTH <? 0)%Z then None
  else Some (spaces (Z.to_nat (indent * INDENT_WIDTH))).

(** [outputMessage] (lines 46 to 52); [None] when [getIndent] throws. *)
Definition outputMessage (message : string) (urgency indent : Z) (linebreak : bool)
    (state : Manager * World) : option (Manager * World) :=
  let '(this, w) := state in
  match getIndent indent with
  | None => None
  | Some blanks =>
      let this := set_outputStream (outputStream this +:+ (blanks +:+ message)) this in
      let this :=
        if linebreak then set_outputStream (outputStream this +:+ endl) this else this in
      Some (printBuffer urgency (this, w))
  end.

(** [finishTimedOutput] (lines 65 to 68); [now] is what [time(NULL)]
    answers. *)
Definition finishTimedOutput (now : Z) (urgency : Z) (state : Manager * World)
    : Manager * World :=
  let '(this, w) := state in
  let this :=
    set_outputStream
      (outputStream this +:+ "Done! ("
       +:+ setw_right 3 (Std.to_string (now - lastTimedOutput this))
       +:+ " seconds)" +:+ endl)
      this in
  printBuffer urgency (this, w).

(** [timedOutput] (lines 55 to 62); [finishNow] is what [time(NULL)]
    answers inside [finishTimedOutput] and [startNow] what it answers on
    line 59. *)
Definition timedOutput (message : string) (urgency indent : Z) (reset : bool)
    (finishNow startNow : Z) (state : Manager * World) : option (Manager * World) :=
  let '(this, w) :=
    if (0 <=? lastTimedOutput state.1)%Z && negb reset
    then finishTimedOutput finishNow urgency state
    else state in
  let this := set_lastTimedOutput startNow this in
  match getIndent indent with
  | None => None
  | Some blanks =>
      let this :=
        set_outputStream
          (outputStream this
           +:+ setw_left (STANDARD_CMD_WIDTH - Z.of_nat FINISH_MESSAGE_LENGTH)
                 (blanks +:+ message))
          this in
      Some (printBuffer urgency (this, w))
  end.

(** [suspendTimedOutputs] (lines 71 to 74) *)
Definition suspendTimedOutputs (urgency : Z) (state : Manager * World)
    : Manager * World :=
  let '(this, w) := state in
  printBuffer urgency (set_outputStream (outputStream this +:+ endl) this, w).

(** [resumeTimedOutputs] (lines 77 to 80) *)
Definition resumeTimedOutputs (urgency : Z) (state : Manager * World)
    : Manager * World :=
  let '(this, w) := state in
  printBuffer urgency
    (set_outputStream
       (outputStream this
        +:+ setw_left (STANDARD_CMD_WIDTH - Z.of_nat FINISH_MESSAGE_LENGTH) "")
       this,
     w).

(** [askYesNoQuestion] (lines 137 to 152) *)
Definition askYesNoQuestion (fuel : nat) (questionMessage help : string)
    (urgency : Z) (defaultAnswer : string) (this : Manager) : M bool :=
  do inputString <-
    (if negb (shouldOutput this urgency) then M_ret defaultAnswer
     else
       getResistantInput fuel
         (questionMessage +:+ " (" +:+ POSITIVE_ANSWER +:+ "/" +:+ NEGATIVE_ANSWER
          +:+ "): ")
         help question) in
  if String.eqb inputString NEGATIVE_ANSWER then M_ret false
  else if String.eqb inputString POSITIVE_ANSWER then M_ret true
  else M_ret false.

End OutputMethods.

Section ReplayTexts.
Context `{Constants} `{Databases}.

(** The text that slot [i] of the setup holds for an army of the given
    units: what [getReplayMonsterNumber] prints for the unit of the
    column, and the text of the sentinel in a column without a unit. *)
Definition setup_slot_text (units : list Monster) (i : nat) : string :=
  let column := i mod ARMY_MAX_SIZE in
  if column <? length units then
    match units !! (length units - column - 1) with
    | Some unit => getReplayMonsterNumber unit
    | None => Std.to_string REPLAY_EMPTY_SPOT
    end
  else Std.to_string REPLAY_EMPTY_SPOT.

End ReplayTexts.

(** Sample values of the output constants: two blanks for a level of
    indentation and lines of 60 characters. *)
Definition sample_output : OutputConstants := {|
  INDENT_WIDTH := 2%Z;
  STANDARD_CMD_WIDTH := 60%Z;
  BASIC_OUTPUT := 4%Z
|}.

(** * Properties *)

(** ** Facts on [find] and [substring] *)

Lemma find_bounds (target separator : string) (start occ : nat) :
  Std.find target separator start = Some occ →
  start ≤ occ ∧ (separator ≠ "" → occ + String.length separator ≤ String.length target).
Proof.
  unfold Std.find. revert start occ.
  induction target as [|c target IH]; intros start occ Hfind; cbn [index] in Hfind.
  - destruct start; [|discriminate].
    destruct separator; [|discriminate].
    simplify_eq. split; [lia|]. intros Hne. by destruct Hne.
  - destruct start as [|start].
    + destruct (String.prefix separator (String c target)) eqn:Hpre.
      * injection Hfind as <-. split; [lia|]. intros _.
        apply prefix_correct in Hpre.
        assert (Hlen : String.length (substring 0 (String.length separator) (String c target))
                       = String.length separator) by (by rewrite Hpre).
        clear Hpre. revert Hlen. generalize (String c target). generalize separator.
        induction separator0 as [|a s IHs]; intros t Hlen; simpl in *; [lia|].
        destruct t as [|b t]; simpl in *; [discriminate|].
        injection Hlen as Hlen. apply IHs in Hlen. lia.
      * destruct (index 0 separator target) as [n|] eqn:Hrec; [|discriminate].
        injection Hfind as <-. apply IH in Hrec as [_ Hrec].
        split; [lia|]. intros Hne. specialize (Hrec Hne). simpl. lia.
    + destruct (index start separator target) as [n|] eqn:Hrec; [|discriminate].
      injection Hfind as <-. apply IH in Hrec as [Hle Hrec].
      split; [lia|]. intros Hne. specialize (Hrec Hne). simpl. lia.
Qed.


Lemma substring_whole (s : string) : substring 0 (String.length s) s = s.
Proof. induction s as [|c s IH]; simpl; [done|]. by rewrite IH. Qed.

Lemma substring_length (s : string) (n m : nat) :
  String.length (substring n m s) = Nat.min m (String.length s - n).
Proof.
  revert n m. induction s as [|c s IH]; intros n m; simpl.
  - destruct n, m; simpl; lia.
  - destruct n as [|n].
    + destruct m as [|m]; simpl; [done|]. rewrite IH. lia.
    + rewrite IH. simpl. lia.
Qed.

(** ** [split] *)

Lemma split_loop_returns (separator : string) (fuel : nat) (target : string)
    (start : nat) (output : list string) :
  separator ≠ "" →
  start ≤ String.length target →
  String.length target - start < fuel →
  ∃ more, split_loop fuel target separator start output = Returns (output ++ more).
Proof.
  intros Hsep. revert start output.
  induction fuel as [|fuel IH]; intros start output Hstart Hfuel; [lia|].
  simpl. unfold Std.substr.
  destruct (Nat.ltb_spec (String.length target) start) as [?|_]; [lia|]. simpl.
  assert (0 < String.length separator) by (destruct separator; [done|simpl; lia]).
  destruct (Std.find target separator start) as [occ|] eqn:Hfind.
  - apply find_bounds in Hfind as [Hle Hend]. specialize (Hend Hsep).
    destruct ((start =? 0) || _).
    + match goal with |- context [split_loop _ _ _ ?st ?out] =>
        destruct (IH st out) as [more ->]; [lia..|] end.
      eexists. by rewrite <- app_assoc.
    + by apply IH; lia.
  - destruct ((start =? 0) || _); [by eexists|].
    exists []. by rewrite app_nil_r.
Qed.


Lemma split_front (target separator : string) :
  separator ≠ "" →
  ∃ rest,
    split target separator
    = Returns (match Std.find target separator 0 with
               | Some occ => substring 0 occ target
               | None => target
               end :: rest).
Proof.
  intros Hsep. unfold split. simpl. unfold Std.substr. simpl.
  destruct (Std.find target separator 0) as [occ|] eqn:Hfind; simpl.
  - apply find_bounds in Hfind as [_ Hend]. specialize (Hend Hsep).
    assert (0 < String.length separator) by (destruct separator; [done|simpl; lia]).
    destruct (split_loop_returns separator (String.length target) target
                (occ + String.length separator) [substring 0 (occ - 0) target])
      as [more Hmore]; [done|lia|lia|].
    rewrite Hmore, Nat.sub_0_r. by exists more.
  - rewrite Nat.sub_0_r, substring_whole. by exists [].
Qed.

(** C10.  For every input, the empty string included, and every
    separator that is not empty, [split] returns a vector that is not
    empty; its first element is the input up to the first occurrence of
    the separator, and the whole input when the separator does not occur.
    Reading element 0 of the result, as [getResistantInput] does twice, is
    therefore in bounds. *)
Theorem split_front_in_bounds (target separator : string) :
  separator ≠ "" →
  let first := match Std.find target separator 0 with
               | Some occ => substring 0 occ target
               | None => target
               end in
  ∃ rest, split target separator = Returns (first :: rest)
          ∧ (let* pieces := split target separator in Std.front pieces) = Returns first.
Proof.
  intros Hsep first. destruct (split_front target separator Hsep) as [rest Hsplit].
  exists rest. by rewrite Hsplit.
Qed.

Lemma split_front_in_bounds_witness :
  ∃ rest, split "panda wolf" " " = Returns ("panda" :: rest)
          ∧ (let* pieces := split "panda wolf" " " in Std.front pieces) = Returns "panda".
Proof. apply (split_front_in_bounds "panda wolf" " "). discriminate. Defined.

(** ** The query loop *)

Section QueryLoopFacts.
Context `{Constants}.

Lemma normalize_returns (line : string) :
  COMMENT_DELIMITOR ≠ "" → TOKEN_SEPARATOR ≠ "" →
  ∃ inputString firstToken, normalize line = Returns (inputString, firstToken).
Proof.
  intros Hcomment Htoken. unfold normalize.
  destruct (split_front (toLower line) COMMENT_DELIMITOR Hcomment) as [rest1 ->]. simpl.
  match goal with |- context [split ?s TOKEN_SEPARATOR] =>
    destruct (split_front s TOKEN_SEPARATOR Htoken) as [rest2 ->] end.
  simpl. eauto.
Qed.

(** What a round does, read off a round that came back. *)
Lemma round_inversion (query help : string) (queryType : QueryType)
    (inputString0 : string) (w : World) (reply : option string)
    (inputString : string) (w' : World) :
  getResistantInput_round query help queryType inputString0 w
  = (Returns (reply, inputString), w') →
  ∃ w1 line firstToken,
    read_line query inputString0 w = (w1, line)
    ∧ normalize line = Returns (inputString, firstToken)
    ∧ ((firstToken = "help" ∧ reply = None
        ∧ w' = print help (echo_line inputString w1))
       ∨ (firstToken ≠ "help" ∧ reply = answer queryType inputString firstToken
          ∧ w' = echo_line inputString w1)).
Proof.
  unfold getResistantInput_round.
  destruct (read_line query inputString0 w) as [w1 line].
  destruct (normalize line) as [[text firstToken]| | |] eqn:Hnormal; try discriminate.
  destruct (String.eqb_spec firstToken "help") as [->|Hne]; intros [= <- <- <-].
  - exists w1, line, "help". eauto 10.
  - exists w1, line, firstToken. eauto 10.
Qed.

(** A call that came back came back from one of its rounds. *)
Lemma loop_inversion (fuel : nat) (query help : string) (queryType : QueryType)
    (inputString0 : string) (w : World) (text : string) (w' : World) :
  getResistantInput_loop fuel query help queryType inputString0 w = (Returns text, w') →
  ∃ inputString1 w1 inputString,
    getResistantInput_round query help queryType inputString1 w1
    = (Returns (Some text, inputString), w').
Proof.
  revert inputString0 w. induction fuel as [|fuel IH]; intros inputString0 w; [done|].
  simpl. unfold M_bind.
  destruct (getResistantInput_round query help queryType inputString0 w)
    as [[[[reply|] inputString]| | |] w1] eqn:Hround; try done.
  - intros [= <- <-]. eauto.
  - apply IH.
Qed.

Lemma answered_line (fuel : nat) (query help : string) (queryType : QueryType)
    (inputString0 : string) (w : World) (text : string) (w' : World) :
  getResistantInput_loop fuel query help queryType inputString0 w = (Returns text, w') →
  ∃ line inputString firstToken,
    normalize line = Returns (inputString, firstToken)
    ∧ firstToken ≠ "help"
    ∧ answer queryType inputString firstToken = Some text.
Proof.
  intros Hloop. apply loop_inversion in Hloop as (s1 & w1 & s & Hround).
  apply round_inversion in Hround as (w2 & line & firstToken & _ & Hnormal & Hcase).
  destruct Hcase as [(_ & ? & _)|(Hne & Hanswer & _)]; [done|].
  exists line, s, firstToken. eauto.
Qed.

(** More fuel does not change a call that came back. *)
Lemma loop_fuel_mono (fuel fuel' : nat) (query help : string) (queryType : QueryType)
    (inputString0 : string) (w : World) (text : string) (w' : World) :
  fuel ≤ fuel' →
  getResistantInput_loop fuel query help queryType inputString0 w = (Returns text, w') →
  getResistantInput_loop fuel' query help queryType inputString0 w = (Returns text, w').
Proof.
  revert fuel' inputString0 w. induction fuel as [|fuel IH]; intros fuel' inputString0 w Hle; [done|].
  destruct fuel' as [|fuel']; [lia|]. simpl. unfold M_bind.
  destruct (getResistantInput_round query help queryType inputString0 w)
    as [[[[reply|] inputString]| | |] w1]; try done.
  apply IH. lia.
Qed.

End QueryLoopFacts.
Section ScriptMode.
Context `{Constants}.

(** With script mode off a line comes from the console: the macro file is
    neither read nor changed. *)
Lemma read_line_console (query inputString : string) (w : World) :
  useMacroFile w = false →
  read_line query inputString w
  = (set_cin (getline (cin w) inputString).1.2 (print query w),
     (getline (cin w) inputString).2).
Proof.
  intros Hoff. unfold read_line. rewrite Hoff. cbn. rewrite Hoff. cbn.
  destruct (getline (cin w) inputString) as [[ok console] line].
  by rewrite Hoff.
Qed.

Lemma round_console_only (query help : string) (queryType : QueryType)
    (inputString : string) (w : World) :
  useMacroFile w = false →
  useMacroFile (getResistantInput_round query help queryType inputString w).2 = false
  ∧ ∀ file,
      getResistantInput_round query help queryType inputString (set_macroFile file w)
      = ((getResistantInput_round query help queryType inputString w).1,
         set_macroFile file (getResistantInput_round query help queryType inputString w).2).
Proof.
  intros Hoff. unfold getResistantInput_round.
  split; [|intros file]; rewrite !read_line_console by done; simpl;
    destruct (normalize _) as [[text firstToken]| | |]; simpl; try done;
    unfold echo_line; simpl; rewrite Hoff; simpl;
    by destruct (String.eqb firstToken "help").
Qed.

Lemma loop_console_only (fuel : nat) (query help : string) (queryType : QueryType)
    (inputString : string) (w : World) :
  useMacroFile w = false →
  useMacroFile (getResistantInput_loop fuel query help queryType inputString w).2 = false
  ∧ ∀ file,
      getResistantInput_loop fuel query help queryType inputString (set_macroFile file w)
      = ((getResistantInput_loop fuel query help queryType inputString w).1,
         set_macroFile file (getResistantInput_loop fuel query help queryType inputString w).2).
Proof.
  revert inputString w. induction fuel as [|fuel IH]; intros inputString w Hoff; [done|].
  destruct (round_console_only query help queryType inputString w Hoff) as [Hflag Hfile].
  simpl. unfold M_bind.
  split; [|intros file; rewrite Hfile];
    destruct (getResistantInput_round query help queryType inputString w)
      as [[[[reply|] text]| | |] w1]; simpl in *; try done;
    by apply IH.
Qed.

Lemma ask_all_console_only (fuel : nat) (queries : list (string * string * QueryType))
    (w : World) :
  useMacroFile w = false →
  useMacroFile (ask_all fuel queries w).2 = false
  ∧ ∀ file,
      ask_all fuel queries (set_macroFile file w)
      = ((ask_all fuel queries w).1, set_macroFile file (ask_all fuel queries w).2).
Proof.
  revert w. induction queries as [|[[query help] queryType] later IH]; intros w Hoff; [done|].
  destruct (loop_console_only fuel query help queryType "" w Hoff) as [Hflag Hfile].
  simpl. unfold M_bind, getResistantInput.
  split; [|intros file; rewrite Hfile];
    destruct (getResistantInput_loop fuel query help queryType "" w)
      as [[text| | |] w1]; simpl in *; try done;
    destruct (IH w1 Hflag) as [Hflag' Hfile']; [|rewrite Hfile'];
    by destruct (ask_all fuel later w1) as [[texts| | |] w2].
Qed.

(** Script mode is switched in one direction only. *)
Lemma read_line_flag (query inputString : string) (w : World) :
  useMacroFile (read_line query inputString w).1 = true → useMacroFile w = true.
Proof.
  destruct (useMacroFile w) eqn:Hflag; [done|].
  rewrite read_line_console by done. simpl. by rewrite Hflag.
Qed.

Lemma round_flag (query help : string) (queryType : QueryType)
    (inputString : string) (w : World) :
  useMacroFile (getResistantInput_round query help queryType inputString w).2 = true →
  useMacroFile w = true.
Proof.
  destruct (useMacroFile w) eqn:Hflag; [done|].
  by rewrite (proj1 (round_console_only query help queryType inputString w Hflag)).
Qed.

Lemma ask_all_flag (fuel : nat) (queries : list (string * string * QueryType)) (w : World) :
  useMacroFile (ask_all fuel queries w).2 = true → useMacroFile w = true.
Proof.
  destruct (useMacroFile w) eqn:Hflag; [done|].
  by rewrite (proj1 (ask_all_console_only fuel queries w Hflag)).
Qed.

(** A read of the macro file that fails switches script mode off before
    the line is taken from the console. *)
Lemma read_line_failed (query inputString : string) (w : World)
    (file : istream) (kept : string) :
  useMacroFile w = true →
  getline (macroFile w) inputString = (false, file, kept) →
  read_line query inputString w
  = read_line query kept (set_useMacroFile false (set_macroFile file w)).
Proof.
  intros Hon Hread. unfold read_line at 1. rewrite Hon, Hread.
  rewrite read_line_console by done. cbn.
  by destruct (getline (cin w) kept) as [[ok console] line].
Qed.

Lemma loop_failed (fuel : nat) (query help : string) (queryType : QueryType)
    (inputString : string) (w : World) (file : istream) (kept : string) :
  useMacroFile w = true →
  getline (macroFile w) inputString = (false, file, kept) →
  getResistantInput_loop (S fuel) query help queryType inputString w
  = getResistantInput_loop (S fuel) query help queryType kept
      (set_useMacroFile false (set_macroFile file w)).
Proof.
  intros Hon Hread. simpl. unfold M_bind, getResistantInput_round.
  by rewrite (read_line_failed query inputString w file kept Hon Hread).
Qed.

End ScriptMode.
Section QueryLoopClaims.
Context `{Constants}.

(** C1, amended.  A text that [getResistantInput] returns for
    [QueryType = integer] is the first token of a normalized line, handed
    back as text, and [std::stoi] accepts it: after white space and a sign
    the token starts with at least one decimal digit and the number read
    fits an [int].  Characters after the digits do not matter.  So for
    every input the call never returns a text that [std::stoi] rejects. *)
Theorem integer_answer_passes_stoi (fuel : nat) (query help : string)
    (w : World) (text : string) (w' : World) :
  getResistantInput fuel query help integer w = (Returns text, w') →
  ∃ line inputString value,
    normalize line = Returns (inputString, text)
    ∧ Std.stoi text = Returns value.
Proof.
  intros Hcall. apply answered_line in Hcall as (line & s & token & Hnormal & _ & Hanswer).
  simpl in Hanswer. destruct (Std.stoi token) as [value| | |] eqn:Hstoi; try done.
  injection Hanswer as <-. eauto.
Qed.

(** C8.  When the first token of the normalized line is [help], the round
    returns no answer whatever the [QueryType]: it prints the help text
    and the loop goes on with the same query, help text and type.  A text
    that the call returns is the answer to a line whose first token is not
    [help]. *)
Theorem help_restarts_the_query (fuel : nat) (query help : string)
    (queryType : QueryType) (inputString0 : string) (w w1 : World)
    (line inputString : string) :
  read_line query inputString0 w = (w1, line) →
  normalize line = Returns (inputString, "help") →
  getResistantInput_round query help queryType inputString0 w
  = (Returns (None, inputString), print help (echo_line inputString w1))
  ∧ getResistantInput_loop (S fuel) query help queryType inputString0 w
    = getResistantInput_loop fuel query help queryType inputString
        (print help (echo_line inputString w1))
  ∧ ∀ text w',
      getResistantInput_loop (S fuel) query help queryType inputString0 w
      = (Returns text, w') →
      ∃ line' inputString' firstToken,
        normalize line' = Returns (inputString', firstToken)
        ∧ firstToken ≠ "help"
        ∧ answer queryType inputString' firstToken = Some text.
Proof.
  intros Hread Hnormal.
  assert (Hround : getResistantInput_round query help queryType inputString0 w
                   = (Returns (None, inputString), print help (echo_line inputString w1))).
  { unfold getResistantInput_round. by rewrite Hread, Hnormal. }
  split; [done|]. split.
  - simpl. unfold M_bind. by rewrite Hround.
  - intros text w' Hcall. by apply answered_line in Hcall.
Qed.

(** C4.  From a read of the macro file that fails: the call goes on as
    the same call with script mode off, it and every later query of the
    session leave script mode off, and their answers and the rest of the
    state do not depend on the macro file, which is not read again.
    Script mode is never switched on by a query. *)
Theorem failed_read_ends_script_mode (fuel : nat) (query help : string)
    (queryType : QueryType) (inputString : string) (w : World)
    (file : istream) (kept : string)
    (queries : list (string * string * QueryType)) :
  useMacroFile w = true →
  getline (macroFile w) inputString = (false, file, kept) →
  let off := set_useMacroFile false (set_macroFile file w) in
  let call := getResistantInput_loop (S fuel) query help queryType inputString w in
  let session := ask_all fuel queries call.2 in
  call = getResistantInput_loop (S fuel) query help queryType kept off
  ∧ (∀ other,
       getResistantInput_loop (S fuel) query help queryType kept (set_macroFile other off)
       = (call.1, set_macroFile other call.2))
  ∧ useMacroFile call.2 = false
  ∧ useMacroFile session.2 = false
  ∧ (∀ other,
       ask_all fuel queries (set_macroFile other call.2)
       = (session.1, set_macroFile other session.2))
  ∧ (∀ before, useMacroFile (ask_all fuel queries before).2 = true →
               useMacroFile before = true).
Proof.
  intros Hon Hread off call session.
  assert (Hcall : call = getResistantInput_loop (S fuel) query help queryType kept off)
    by (by apply loop_failed).
  destruct (loop_console_only (S fuel) query help queryType kept off eq_refl)
    as [Hflag Hfile].
  rewrite <- Hcall in Hflag, Hfile.
  destruct (ask_all_console_only fuel queries call.2 Hflag) as [Hflag' Hfile'].
  repeat split; try done. intros before. apply ask_all_flag.
Qed.

End QueryLoopClaims.

Lemma integer_answer_passes_stoi_witness :
  ∃ line inputString value,
    normalize (H := Sample.constants) line = Returns (inputString, "42")
    ∧ Std.stoi "42" = Returns value.
Proof.
  eapply (integer_answer_passes_stoi (H := Sample.constants) 2 "Amount: " ""
            (Sample.interactive ["forty"; "42 // the answer"])).
  vm_compute. reflexivity.
Defined.

(** The claim as worded asks for a token that is numeric as a whole;
    [12abc] is returned although it is not. *)
Lemma integer_answer_not_whole_token :
  (getResistantInput (H := Sample.constants) 1 "Amount: " "" integer
     (Sample.interactive ["12abc"])).1 = Returns "12abc"
  ∧ whole_token_numeric "12abc" = false.
Proof. split; vm_compute; reflexivity. Qed.

Lemma help_restarts_the_query_witness :
  getResistantInput_round (H := Sample.constants) "Lineup: " "Enter monsters." raw ""
    (Sample.interactive ["Help me"; "panda"])
  = (Returns (None, "help me"),
     print "Enter monsters."
       (echo_line "help me"
          (read_line "Lineup: " "" (Sample.interactive ["Help me"; "panda"])).1))
  ∧ (getResistantInput (H := Sample.constants) 2 "Lineup: " "Enter monsters." raw
       (Sample.interactive ["Help me"; "panda"])).1 = Returns "panda".
Proof.
  destruct (help_restarts_the_query (H := Sample.constants) 1 "Lineup: "
              "Enter monsters." raw "" (Sample.interactive ["Help me"; "panda"])
              (read_line "Lineup: " "" (Sample.interactive ["Help me"; "panda"])).1
              "Help me" "help me")
    as (Hround & Hloop & _); [vm_compute; reflexivity..|].
  split; [exact Hround|]. unfold getResistantInput. rewrite Hloop.
  vm_compute. reflexivity.
Defined.

(** A script of two lines and three queries: the third query is asked on
    the console. *)
Lemma failed_read_ends_script_mode_witness :
  let after_two :=
    (ask_all (H := Sample.constants) 1 [("First: ", "", raw); ("Second: ", "", raw)]
       (Sample.scripted ["panda"; "wolf"] ["hero1:3"])).2 in
  useMacroFile after_two = true
  ∧ (getResistantInput (H := Sample.constants) 1 "Third: " "" raw after_two).1
    = Returns "hero1:3"
  ∧ useMacroFile
      (getResistantInput (H := Sample.constants) 1 "Third: " "" raw after_two).2 = false
  ∧ cout (getResistantInput (H := Sample.constants) 1 "Third: " "" raw after_two).2
    = ["Third: "].
Proof.
  intros after_two.
  destruct (failed_read_ends_script_mode (H := Sample.constants) 0 "Third: " "" raw ""
              after_two
              {| pending := []; partial := ""; eofbit := true; failbit := true |} "" [])
    as (Hcall & _ & Hflag & _); [vm_compute; reflexivity..|].
  split; [vm_compute; reflexivity|]. split; [vm_compute; reflexivity|].
  split; [exact Hflag|vm_compute; reflexivity].
Defined.

(** ** Quest references *)

Lemma string_app_cons (c : ascii) (a b : string) :
  String c a +:+ b = String c (a +:+ b).
Proof. reflexivity. Qed.

Lemma string_app_length (a b : string) :
  String.length (a +:+ b) = String.length a + String.length b.
Proof.
  induction a as [|c a IH]; [done|].
  rewrite string_app_cons. simpl. by rewrite IH.
Qed.

Lemma string_app_assoc (a b c : string) : (a +:+ b) +:+ c = a +:+ (b +:+ c).
Proof.
  induction a as [|x a IH]; [done|].
  rewrite !string_app_cons. by rewrite IH.
Qed.

Lemma substring_app_front (p x : string) :
  substring 0 (String.length p) (p +:+ x) = p.
Proof.
  induction p as [|c p IH]; [by destruct x|].
  rewrite string_app_cons. simpl. by rewrite IH.
Qed.

Lemma substring_app_skip (p x : string) (n : nat) :
  substring (String.length p) n (p +:+ x) = substring 0 n x.
Proof.
  induction p as [|c p IH]; [done|].
  rewrite string_app_cons. simpl. by rewrite IH.
Qed.

Lemma find_after_clean_prefix (a b : string) (d : ascii) :
  Std.find a (String d "") 0 = None →
  Std.find (a +:+ String d b) (String d "") 0 = Some (String.length a).
Proof.
  unfold Std.find. induction a as [|c a IH].
  - intros _. change ("" +:+ String d b) with (String d b).
    cbn [index String.prefix]. destruct (ascii_dec d d); [|done]. by destruct b.
  - rewrite string_app_cons. cbn [index String.prefix String.length].
    destruct (ascii_dec d c) as [->|Hne].
    + by destruct a.
    + destruct (index 0 (String d "") a) eqn:Hrec; [done|].
      intros _. by rewrite IH.
Qed.

Lemma digit_facts (c : ascii) (d : Z) :
  Std.digit c = Some d →
  (0 ≤ d ≤ 9)%Z ∧ Std.isspace c = false ∧ c ≠ "-"%char ∧ c ≠ "+"%char.
Proof.
  destruct c as [[] [] [] [] [] [] [] []]; vm_compute; intros [= <-];
    repeat split; discriminate.
Qed.

Lemma stoi_one_digit (c : ascii) (d : Z) :
  Std.digit c = Some d → Std.stoi (String c "") = Returns d.
Proof.
  intros Hdigit. destruct (digit_facts c d Hdigit) as (Hrange & Hspace & Hminus & Hplus).
  unfold Std.stoi. cbn [Std.skip_spaces]. rewrite Hspace.
  assert (Hsign : match String c "" with
                  | String "-" t => (true, t)
                  | String "+" t => (false, t)
                  | _ => (false, String c "")
                  end = (false, String c "")).
  { destruct c as [[] [] [] [] [] [] [] []]; try done; by destruct Hminus || by destruct Hplus. }
  rewrite Hsign. cbn [Std.leading_digits]. rewrite Hdigit.
  unfold Std.decimal_value, Std.INT_MIN, Std.INT_MAX. simpl fold_left.
  replace (10 * 0 + d)%Z with d by lia.
  destruct (Z.leb_spec (- 2 ^ 31) d), (Z.leb_spec d (2 ^ 31 - 1)); simpl; try done; lia.
Qed.

Section QuestReference.
Context `{Constants} `{Databases}.

(** C2, amended.  The tier of a quest reference is the one character
    after the dash.  For a token made of the quest prefix, the text of a
    quest number, the dash and a digit from 1 to 9, followed by anything,
    [makeInstanceFromString] returns an instance whose target is the army
    resolved from the lineup of that quest, whose [targetSize] is the unit
    count of that army and whose [maxCombatants] is [ARMY_MAX_SIZE] minus
    the digit minus one. *)
Theorem quest_instance (questText : string) (dash tierChar : ascii) (rest : string)
    (questNumber tier : Z) (lineup : list string) (army : Army) (w w' : World) :
  QUEST_NUMBER_SEPARTOR = String dash "" →
  Std.find (QUEST_PREFIX +:+ questText) QUEST_NUMBER_SEPARTOR 0 = None →
  Std.stoi questText = Returns questNumber →
  quests_at questNumber = Returns lineup →
  makeArmyFromStrings lineup w = (Returns army, w') →
  Std.digit tierChar = Some tier →
  (1 ≤ tier)%Z →
  makeInstanceFromString
    (QUEST_PREFIX +:+ questText +:+ QUEST_NUMBER_SEPARTOR +:+ String tierChar rest) w
  = (Returns {| target := army;
                maxCombatants := (Z.of_nat ARMY_MAX_SIZE - (tier - 1))%Z;
                targetSize := monsterAmount army |},
     w').
Proof.
  intros Hdash Hclean Hquest Hlineup Harmy Htier _.
  unfold makeInstanceFromString. rewrite Hdash in *.
  set (token := QUEST_PREFIX +:+ questText +:+ String dash "" +:+ String tierChar rest).
  assert (Htoken : token = (QUEST_PREFIX +:+ questText) +:+ String dash (String tierChar rest))
    by (subst token; by rewrite string_app_assoc).
  assert (Hfind : Std.find token (String dash "") 0
                  = Some (String.length QUEST_PREFIX + String.length questText)).
  { rewrite Htoken, find_after_clean_prefix by done. by rewrite string_app_length. }
  rewrite Hfind. subst token. rewrite substring_app_front, String.eqb_refl.
  unfold M_bind, lift, Std.substr, Std.count_sub, position_after.
  rewrite !string_app_length. cbn [String.length].
  destruct (Nat.ltb_spec (String.length QUEST_PREFIX + (String.length questText
              + (1 + S (String.length rest)))) (String.length QUEST_PREFIX)); [lia|].
  destruct (Nat.ltb_spec (String.length QUEST_PREFIX + String.length questText)
              (String.length QUEST_PREFIX)); [lia|].
  unfold default. cbn [from_option id]. rewrite substring_app_skip.
  replace (String.length QUEST_PREFIX + String.length questText - String.length QUEST_PREFIX)
    with (String.length questText) by lia.
  rewrite substring_app_front, Hquest, Hlineup, Harmy.
  destruct (Nat.ltb_spec (String.length QUEST_PREFIX + (String.length questText
              + (1 + S (String.length rest))))
              (String.length QUEST_PREFIX + String.length questText + 1)); [lia|].
  rewrite <- string_app_assoc.
  replace (String.length QUEST_PREFIX + String.length questText + 1)
    with (String.length ((QUEST_PREFIX +:+ questText) +:+ String dash ""))
    by (rewrite !string_app_length; simpl; lia).
  rewrite <- (string_app_assoc (QUEST_PREFIX +:+ questText)), substring_app_skip.
  cbn [substring]. replace (substring 0 0 rest) with EmptyString by (by destruct rest).
  by rewrite (stoi_one_digit tierChar tier Htier).
Qed.

End QuestReference.

(** [q3-2] where quest 3 is a panda and a wolf: two units against at most
    [ARMY_MAX_SIZE - 1] combatants. *)
Lemma quest_instance_witness :
  makeInstanceFromString (H := Sample.constants) (H0 := Sample.databases) "q3-2"
    (Sample.interactive [])
  = (Returns {| target := {| monsters := [0%Z; 1%Z] |};
                maxCombatants := (Z.of_nat (@ARMY_MAX_SIZE Sample.constants) - 1)%Z;
                targetSize := 2%Z |},
     Sample.interactive []).
Proof.
  apply (quest_instance (H := Sample.constants) (H0 := Sample.databases)
           "3" "-" "2" "" 3%Z 2%Z ["panda"; "wolf"] {| monsters := [0%Z; 1%Z] |});
    (vm_compute; reflexivity) || (vm_compute; discriminate).
Defined.

(** The claim as worded covers every tier from 1 on; for tier 10 it asks
    for [ARMY_MAX_SIZE - 9] combatants, and the code reads the tier as 1. *)
Lemma quest_tier_of_two_digits :
  (makeInstanceFromString (H := Sample.constants) (H0 := Sample.databases) "q3-10"
     (Sample.interactive [])).1
  = Returns {| target := {| monsters := [0%Z; 1%Z] |};
               maxCombatants := Z.of_nat (@ARMY_MAX_SIZE Sample.constants);
               targetSize := 2%Z |}
  ∧ Z.of_nat (@ARMY_MAX_SIZE Sample.constants)
    ≠ (Z.of_nat (@ARMY_MAX_SIZE Sample.constants) - (10 - 1))%Z.
Proof. split; [vm_compute; reflexivity|vm_compute; discriminate]. Qed.

(** ** The instance command *)

Section InstanceCommand.
Context `{Constants} `{Databases}.

Lemma parse_returns (tokens : list string) (collected : list Instance) (w : World)
    (result : list Instance) (w' : World) :
  takeInstanceInput_parse tokens collected w = (Returns result, w') ↔
  ∃ instances, result = collected ++ instances ∧ parsed_in_turn tokens w instances w'.
Proof.
  revert collected w result.
  induction tokens as [|token tokens IH]; intros collected w result; simpl.
  - unfold M_ret. split.
    + intros [= <- <-]. exists []. split; [by rewrite app_nil_r|constructor].
    + intros (instances & -> & Hturn). inversion Hturn; subst. by rewrite app_nil_r.
  - unfold M_bind.
    destruct (makeInstanceFromString token w) as [[instance| | |] w1] eqn:Hfirst.
    + rewrite IH. split.
      * intros (instances & -> & Hturn). exists (instance :: instances).
        split; [by rewrite <- app_assoc|]. by econstructor.
      * intros (instances & -> & Hturn). inversion Hturn as [|? ? ? wa ? first found Ha Hb]; subst.
        rewrite Hfirst in Ha. injection Ha as <- <-.
        exists found. split; [by rewrite <- app_assoc|done].
    + split; [done|]. intros (? & _ & Hturn). inversion Hturn; congruence.
    + split; [done|]. intros (? & _ & Hturn). inversion Hturn; congruence.
    + split; [done|]. intros (? & _ & Hturn). inversion Hturn; congruence.
Qed.

Lemma parse_throws (before : list string) (bad : string) (after : list string)
    (collected parsed : list Instance) (w w1 w2 : World) (e : exception) :
  parsed_in_turn before w parsed w1 →
  makeInstanceFromString bad w1 = (Throws e, w2) →
  takeInstanceInput_parse (before ++ bad :: after) collected w = (Throws e, w2).
Proof.
  intros Hturn. revert collected.
  induction Hturn as [w|token tokens w wa wb instance instances Hfirst _ IH];
    intros collected Hbad; simpl; unfold M_bind.
  - by rewrite Hbad.
  - rewrite Hfirst. by apply IH.
Qed.

Lemma parsed_in_turn_length (tokens : list string) (w : World)
    (instances : list Instance) (w' : World) :
  parsed_in_turn tokens w instances w' → length instances = length tokens.
Proof. induction 1; simpl; congruence. Qed.

Lemma instance_call_inversion (fuel : nat) (prompt : string) (w : World)
    (instances : list Instance) (w' : World) :
  takeInstanceInput fuel prompt w = (Returns instances, w') →
  ∃ fuel' w0 input w1 tokens,
    getResistantInput fuel' prompt lineupInputHelp raw w0 = (Returns input, w1)
    ∧ split input TOKEN_SEPARATOR = Returns tokens
    ∧ parsed_in_turn tokens w1 instances w'.
Proof.
  revert w. induction fuel as [|fuel IH]; intros w; [done|].
  simpl. unfold M_bind, lift, M_catch.
  destruct (getResistantInput fuel prompt lineupInputHelp raw w)
    as [[input| | |] w1] eqn:Hinput; try done.
  destruct (split input TOKEN_SEPARATOR) as [tokens| | |] eqn:Hsplit; try done.
  destruct (takeInstanceInput_parse tokens [] w1) as [[result|e| |] w2] eqn:Hparse;
    try done.
  - intros [= <- <-]. apply parse_returns in Hparse as (found & -> & Hturn).
    exists fuel, w, input, w1, tokens. eauto.
  - apply IH.
Qed.

(** X24.  A vector that [takeInstanceInput] returns is the vector of one
    line: the line was split at the token separator and every token of it
    gave its instance, in order, so the vector has one instance for each
    token.  When the parse of a token ends with an exception, after any
    number of tokens that parsed, nothing is returned for that line: the
    call goes on as a new round of the loop, which asks again.  Nothing
    is said here on a token whose parse does not end with an exception,
    as the read of [quests] outside of the vector. *)
Theorem instances_of_a_whole_line (fuel : nat) (prompt : string) (w : World)
    (instances : list Instance) (w' : World) :
  takeInstanceInput fuel prompt w = (Returns instances, w') →
  (∃ fuel' w0 input w1 tokens,
     getResistantInput fuel' prompt lineupInputHelp raw w0 = (Returns input, w1)
     ∧ split input TOKEN_SEPARATOR = Returns tokens
     ∧ parsed_in_turn tokens w1 instances w'
     ∧ length instances = length tokens)
  ∧ (∀ fuel0 w0 input w1 before bad after parsed w2 e w3,
       getResistantInput fuel0 prompt lineupInputHelp raw w0 = (Returns input, w1) →
       split input TOKEN_SEPARATOR = Returns (before ++ bad :: after) →
       parsed_in_turn before w1 parsed w2 →
       makeInstanceFromString bad w2 = (Throws e, w3) →
       takeInstanceInput (S fuel0) prompt w0 = takeInstanceInput fuel0 prompt w3).
Proof.
  intros Hcall. split.
  - apply instance_call_inversion in Hcall as (fuel' & w0 & input & w1 & tokens & ? & ? & Hturn).
    exists fuel', w0, input, w1, tokens. eauto using parsed_in_turn_length.
  - intros fuel0 w0 input w1 before bad after parsed w2 e w3 Hinput Hsplit Hturn Hbad.
    simpl. unfold M_bind, lift, M_catch. rewrite Hinput, Hsplit.
    by rewrite (parse_throws before bad after [] parsed w1 w2 w3 e Hturn Hbad).
Qed.

End InstanceCommand.

(** The first line has a token that is no monster: it is dropped as a
    whole and the second line is the one that is returned. *)
Lemma instances_of_a_whole_line_witness :
  (∃ fuel' w0 input w1 tokens,
     getResistantInput (H := Sample.constants) fuel' "Lineup: " (@lineupInputHelp Sample.constants) raw w0
     = (Returns input, w1)
     ∧ split input " " = Returns tokens
     ∧ parsed_in_turn (H := Sample.constants) (H0 := Sample.databases) tokens w1
         [ {| target := {| monsters := [1%Z; 0%Z] |}; maxCombatants := 6%Z;
              targetSize := 2%Z |};
           {| target := {| monsters := [0%Z] |}; maxCombatants := 6%Z;
              targetSize := 1%Z |} ]
         (takeInstanceInput (H := Sample.constants) (H0 := Sample.databases) 3 "Lineup: "
            (Sample.interactive ["panda dragon"; "wolf,panda panda"])).2
     ∧ 2 = length tokens)
  ∧ takeInstanceInput (H := Sample.constants) (H0 := Sample.databases) 3 "Lineup: "
      (Sample.interactive ["panda dragon"; "wolf,panda panda"])
    = takeInstanceInput (H := Sample.constants) (H0 := Sample.databases) 2 "Lineup: "
        (set_cin (Sample.console ["wolf,panda panda"])
           (print "Lineup: " (Sample.interactive []))).
Proof.
  destruct (instances_of_a_whole_line (H := Sample.constants) (H0 := Sample.databases)
              3 "Lineup: " (Sample.interactive ["panda dragon"; "wolf,panda panda"])
              [ {| target := {| monsters := [1%Z; 0%Z] |}; maxCombatants := 6%Z;
                   targetSize := 2%Z |};
                {| target := {| monsters := [0%Z] |}; maxCombatants := 6%Z;
                   targetSize := 1%Z |} ]
              (takeInstanceInput (H := Sample.constants) (H0 := Sample.databases) 3
                 "Lineup: "
                 (Sample.interactive ["panda dragon"; "wolf,panda panda"])).2)
    as [Hline Hdrop]; [vm_compute; reflexivity|].
  split; [exact Hline|].
  eapply (Hdrop 2 _ "panda dragon" _ ["panda"] "dragon" []).
  - vm_compute. reflexivity.
  - vm_compute. reflexivity.
  - econstructor; [vm_compute; reflexivity|constructor].
  - vm_compute. reflexivity.
Defined.

(** C5.  The claim asks that a line with a token that fails to parse is
    rejected as a whole and that the loop asks again.  With a table of
    four quests, the line [q9-1] names a quest that the table does not
    hold: line 208 reads [quests[9]] without a check, outside of the
    vector, and the call has no defined outcome.  The line is not
    rejected and the next line, [panda], is not read, however many
    rounds are allowed.  The sibling case is handled: for the unknown
    monster [dragon] the lookup [monsterMap.at] of line 229 throws, the
    line is dropped and the next line gives the vector. *)
Theorem quest_past_the_table_is_not_rejected (fuel : nat) :
  takeInstanceInput (H := Sample.constants) (H0 := Sample.databases) (S (S fuel)) "Lineup: "
    (Sample.interactive ["q9-1"; "panda"])
  = (Undefined,
     set_cin (Sample.console ["panda"]) (print "Lineup: " (Sample.interactive [])))
  ∧ (takeInstanceInput (H := Sample.constants) (H0 := Sample.databases) (S (S (S fuel)))
       "Lineup: " (Sample.interactive ["dragon"; "panda"])).1
    = Returns [ {| target := {| monsters := [0%Z] |}; maxCombatants := 6%Z;
                   targetSize := 1%Z |} ].
Proof. split; vm_compute; reflexivity. Qed.

(** ** The hero level command *)

Section HeroLevels.
Context `{Constants} `{Databases}.

(** A round that reads a line of the console whose first token is not
    [help]. *)
Lemma console_round (query help : string) (queryType : QueryType)
    (inputString0 line : string) (rest : list string) (w : World)
    (inputString firstToken : string) :
  useMacroFile w = false →
  eofbit (cin w) = false → failbit (cin w) = false →
  pending (cin w) = line :: rest →
  normalize line = Returns (inputString, firstToken) →
  firstToken ≠ "help" →
  getResistantInput_round query help queryType inputString0 w
  = (Returns (answer queryType inputString firstToken, inputString),
     set_cin {| pending := rest; partial := partial (cin w);
                eofbit := false; failbit := false |}
       (print query w)).
Proof.
  intros Hoff Heof Hfail Hpending Hnormal Hne.
  unfold getResistantInput_round. rewrite read_line_console by done.
  unfold getline, good. rewrite Heof, Hfail, Hpending. simpl.
  rewrite Hnormal. unfold echo_line. simpl. rewrite Hoff. simpl.
  by destruct (String.eqb_spec firstToken "help").
Qed.


Lemma hero_loop_unfold (fuel : nat) (heroes : list Z) (cancelCounter : Z) (w : World) :
  takeHerolevelInput_loop (S fuel) heroes cancelCounter w
  = match getResistantInput fuel
            ("Enter Hero " +:+ Std.to_string (Z.of_nat (length heroes + 1)) +:+ ": ")
            heroInputHelp rawFirst w with
    | (Returns input, w1) =>
        match takeHerolevelInput_entry input heroes cancelCounter w1 with
        | (Returns (heroes', cancelCounter'), w2) =>
            if negb (String.eqb input "done") && (cancelCounter' <? 2)%Z
            then takeHerolevelInput_loop fuel heroes' cancelCounter' w2
            else (Returns heroes', w2)
        | (Throws e, w2) => (Throws e, w2)
        | (Undefined, w2) => (Undefined, w2)
        | (OutOfFuel, w2) => (OutOfFuel, w2)
        end
    | (Throws e, w1) => (Throws e, w1)
    | (Undefined, w1) => (Undefined, w1)
    | (OutOfFuel, w1) => (OutOfFuel, w1)
    end.
Proof.
  cbn [takeHerolevelInput_loop]. unfold M_bind.
  destruct (getResistantInput fuel _ heroInputHelp rawFirst w) as [[input| | |] w1]; try done.
  destruct (takeHerolevelInput_entry input heroes cancelCounter w1)
    as [[[heroes' cancelCounter']| | |] w2]; try done.
  by destruct (negb _ && _).
Qed.









End HeroLevels.



(** ** The replay encoder *)

Lemma comma_separated_cons (text : string) (rest : list string) :
  rest ≠ [] →
  comma_separated (text :: rest) = text +:+ "," +:+ comma_separated rest.
Proof. by destruct rest. Qed.

Lemma string_app_empty_r (a : string) : a +:+ "" = a.
Proof.
  induction a as [|c a IH]; [done|].
  rewrite string_app_cons. by rewrite IH.
Qed.

Lemma to_int8_small (z : Z) : (-128 ≤ z ≤ 127)%Z → Std.to_int8 z = z.
Proof.
  intros Hrange. unfold Std.to_int8.
  rewrite Z.mod_small by lia. lia.
Qed.

Lemma replay_scan_no_match (matches : Monster → bool) (encode : nat → Z)
    (table : list Monster) (i : nat) (index : Z) :
  (∀ j entry, table !! j = Some entry → matches entry = false) →
  replay_scan matches encode table i index = index.
Proof.
  revert i index. induction table as [|entry table IH]; intros i index Hnone; [done|].
  simpl. rewrite (Hnone 0 entry eq_refl).
  apply IH. intros j entry' Hj. by apply (Hnone (S j)).
Qed.

(** When one entry of the table matches, and no other, the scan yields the
    code of its position. *)
Lemma replay_scan_single (matches : Monster → bool) (encode : nat → Z)
    (table : list Monster) (i : nat) (index : Z) (k : nat) (found : Monster) :
  table !! k = Some found →
  matches found = true →
  (∀ j entry, table !! j = Some entry → matches entry = true → j = k) →
  replay_scan matches encode table i index = encode (i + k).
Proof.
  revert i index k.
  induction table as [|entry table IH]; intros i index k Hk Hfound Hsingle; [done|].
  simpl. destruct k as [|k].
  - injection Hk as ->. rewrite Hfound, Nat.add_0_r.
    apply replay_scan_no_match. intros j entry' Hj.
    destruct (matches entry') eqn:Hmatch; [|done].
    by specialize (Hsingle (S j) entry' Hj Hmatch).
  - destruct (matches entry) eqn:Hmatch.
    { by specialize (Hsingle 0 entry eq_refl Hmatch). }
    rewrite (IH (S i) index k); [f_equal; lia|done..|].
    intros j entry' Hj Hmatch'. specialize (Hsingle (S j) entry' Hj Hmatch'). lia.
Qed.

Section ReplayFacts.
Context `{Constants} `{Databases}.

Lemma resolves_length (w : World) (setup : Army) (units : list Monster) :
  resolves w setup units → monsterAmount setup = Z.of_nat (length units).
Proof. intros Hres. unfold monsterAmount. by rewrite (Forall2_length _ _ _ Hres). Qed.

(** The inner loop of [getReplayHeroes] finds what the specification
    names. *)
Lemma hero_level_found (w : World) (setup : Army) (units : list Monster) (hero : Monster) :
  resolves w setup units →
  getReplayHeroes_level (monsters setup) hero w = Returns (spec_hero_level units hero).
Proof.
  unfold resolves, spec_hero_level.
  induction 1 as [|index unit indices units Hunit _ IH]; [done|].
  simpl. rewrite Hunit. simpl.
  by destruct (is_hero (rarity unit) && String.eqb (baseName unit) (baseName hero)).
Qed.

Lemma heroes_loop_text (w : World) (setup : Army) (units : list Monster)
    (templates : list Monster) (i : nat) (heroes : string) :
  resolves w setup units →
  i + length templates = length baseHeroes →
  getReplayHeroes_loop templates i setup heroes w
  = Returns (heroes
             +:+ comma_separated (map Std.to_string (map (spec_hero_level units) templates))).
Proof.
  intros Hres. revert i heroes.
  induction templates as [|hero templates IH]; intros i heroes Hlen.
  - simpl. by rewrite string_app_empty_r.
  - cbn [getReplayHeroes_loop]. rewrite (hero_level_found w setup units hero Hres).
    cbn [result_bind]. simpl in Hlen.
    destruct templates as [|next templates].
    + by destruct (Nat.ltb_spec i (length baseHeroes - 1)); [simpl in Hlen; lia|].
    + destruct (Nat.ltb_spec i (length baseHeroes - 1)); [|simpl in Hlen; lia].
      rewrite IH by (simpl in *; lia).
      cbn [map]. rewrite (comma_separated_cons _ (_ :: _)) by done.
      by rewrite !string_app_assoc.
Qed.

(** C7.  The [shero] and [phero] text of an army is an array with one
    entry for each hero template, in the order of the templates; the
    entry of a template is the level of the first unit of the army, in
    insertion order, that is a hero with the base name of the template,
    and 0 when the army has no such unit. *)
Theorem replay_heroes_by_template (w : World) (setup : Army) (units : list Monster) :
  resolves w setup units →
  getReplayHeroes setup w = Returns (array_text (spec_heroes units))
  ∧ length (spec_heroes units) = length baseHeroes
  ∧ ∀ i hero, baseHeroes !! i = Some hero →
              spec_heroes units !! i = Some (spec_hero_level units hero).
Proof.
  intros Hres. split; [|split].
  - unfold getReplayHeroes, array_text, spec_heroes.
    rewrite (heroes_loop_text w setup units baseHeroes 0 "[" Hres) by done.
    simpl. by rewrite string_app_assoc.
  - unfold spec_heroes. by rewrite length_map.
  - intros i hero Hi. unfold spec_heroes.
    change (map (spec_hero_level units) baseHeroes)
      with (spec_hero_level units <$> baseHeroes).
    by rewrite list_lookup_fmap, Hi.
Qed.

End ReplayFacts.

(** A hero of level 5 behind a panda, and a second hero of the same base
    name at level 9 behind it: the first one counts. *)
Lemma replay_heroes_by_template_witness :
  getReplayHeroes (H0 := Sample.databases)
    {| monsters := [0%Z; 2%Z; 3%Z] |}
    (set_monsterReference
       [Sample.panda; Sample.wolf;
        {| name := "hero1"; baseName := "hero1"; rarity := HERO_RARITY 0; level := 5%Z |};
        {| name := "hero1"; baseName := "hero1"; rarity := HERO_RARITY 0; level := 9%Z |}]
       (Sample.interactive []))
  = Returns "[5,0]".
Proof.
  destruct (replay_heroes_by_template (H0 := Sample.databases)
              (set_monsterReference
                 [Sample.panda; Sample.wolf;
                  {| name := "hero1"; baseName := "hero1"; rarity := HERO_RARITY 0;
                     level := 5%Z |};
                  {| name := "hero1"; baseName := "hero1"; rarity := HERO_RARITY 0;
                     level := 9%Z |}]
                 (Sample.interactive []))
              {| monsters := [0%Z; 2%Z; 3%Z] |}
              [Sample.panda;
               {| name := "hero1"; baseName := "hero1"; rarity := HERO_RARITY 0;
                  level := 5%Z |};
               {| name := "hero1"; baseName := "hero1"; rarity := HERO_RARITY 0;
                  level := 9%Z |}])
    as [Htext _]; [repeat constructor|].
  exact Htext.
Defined.

Section ReplaySetupFacts.
Context `{Constants} `{Databases}.

(** The code that [getReplayMonsterNumber] prints for a unit that its
    table names once, at a position whose code an [int8_t] holds. *)
Lemma monster_number_is_code (unit : Monster) (k : nat) :
  named_once_at unit k →
  code_fits unit k →
  ∃ code,
    spec_unit_code unit = Some code
    ∧ getReplayMonsterNumber unit = Std.to_string code.
Proof.
  unfold named_once_at, code_fits, spec_unit_code, getReplayMonsterNumber.
  destruct (is_hero (rarity unit)); intros [(found & Hk & Hname) Hsingle] Hfit.
  - destruct (list_find _ baseHeroes) as [[k' hero]|] eqn:Hfind.
    + apply list_find_Some in Hfind as (Hk' & Hname' & _).
      assert (k' = k) as -> by eauto.
      eexists. split; [done|]. simpl.
      rewrite (replay_scan_single _ _ baseHeroes 0 _ k found); simpl; try done.
      * f_equal. rewrite to_int8_small; lia.
      * by apply String.eqb_eq.
      * intros j entry Hj Hmatch. apply String.eqb_eq in Hmatch. eauto.
    + apply list_find_None in Hfind.
      by destruct (Forall_lookup_1 _ _ _ _ Hfind Hk).
  - destruct (list_find _ monsterBaseList) as [[k' entry]|] eqn:Hfind.
    + apply list_find_Some in Hfind as (Hk' & Hname' & _).
      assert (k' = k) as -> by eauto.
      eexists. split; [done|]. simpl.
      rewrite (replay_scan_single _ _ monsterBaseList 0 _ k found); simpl; try done.
      * f_equal. rewrite to_int8_small; lia.
      * by apply String.eqb_eq.
      * intros j entry' Hj Hmatch. apply String.eqb_eq in Hmatch. eauto.
    + apply list_find_None in Hfind.
      by destruct (Forall_lookup_1 _ _ _ _ Hfind Hk).
Qed.

Lemma slot_is_code (w : World) (setup : Army) (units : list Monster) (i : nat) (code : Z) :
  resolves w setup units →
  Forall (fun unit => ∃ k, named_once_at unit k ∧ code_fits unit k) units →
  spec_slot units i = Some code →
  getReplaySetup_slot setup i w = Returns (Std.to_string code).
Proof.
  intros Hres Hnamed Hslot.
  unfold spec_slot in Hslot. unfold getReplaySetup_slot.
  rewrite (resolves_length w setup units Hres).
  destruct (Nat.ltb_spec (i mod ARMY_MAX_SIZE) (length units)) as [Hin|Hout].
  - destruct (Z.ltb_spec (Z.of_nat (i mod ARMY_MAX_SIZE)) (Z.of_nat (length units)));
      [|lia].
    replace (Z.to_nat (Z.of_nat (length units) - Z.of_nat (i mod ARMY_MAX_SIZE) - 1))
      with (length units - i mod ARMY_MAX_SIZE - 1) by lia.
    destruct (units !! (length units - i mod ARMY_MAX_SIZE - 1)) as [unit|] eqn:Hunit;
      [|done].
    simpl in Hslot.
    destruct (Forall_lookup_1 _ _ _ _ Hnamed Hunit) as (k & Hk & Hfit).
    destruct (monster_number_is_code unit k Hk Hfit) as (code' & Hcode & Hnumber).
    destruct (Forall2_lookup_r _ _ _ _ _ Hres Hunit) as (index & -> & ->).
    simpl. rewrite Hnumber. congruence.
  - destruct (Z.ltb_spec (Z.of_nat (i mod ARMY_MAX_SIZE)) (Z.of_nat (length units)));
      [lia|].
    by injection Hslot as ->.
Qed.

Lemma setup_loop_text (w : World) (setup : Army) (entries : list Z)
    (i : nat) (stringSetup : string) :
  i + length entries = ARMY_MAX_SIZE * TOURNAMENT_LINES →
  Forall2 (fun j entry => getReplaySetup_slot setup j w = Returns (Std.to_string entry))
    (seq i (length entries)) entries →
  getReplaySetup_loop (length entries) i setup stringSetup w
  = Returns (stringSetup +:+ comma_separated (map Std.to_string entries)).
Proof.
  revert i stringSetup.
  induction entries as [|entry entries IH]; intros i stringSetup Hlen Hslots.
  - simpl. by rewrite string_app_empty_r.
  - cbn [length seq] in Hslots. apply Forall2_cons in Hslots as [Hslot Hslots].
    cbn [length getReplaySetup_loop]. rewrite Hslot. cbn [result_bind].
    simpl in Hlen. destruct entries as [|next entries].
    + by destruct (Nat.ltb_spec i (ARMY_MAX_SIZE * TOURNAMENT_LINES - 1));
        [simpl in Hlen; lia|].
    + destruct (Nat.ltb_spec i (ARMY_MAX_SIZE * TOURNAMENT_LINES - 1));
        [|simpl in Hlen; lia].
      rewrite IH by (simpl in *; done || lia).
      cbn [map]. rewrite (comma_separated_cons _ (_ :: _)) by done.
      by rewrite !string_app_assoc.
Qed.

Lemma every_slot_has_a_code (units : list Monster) (i : nat) :
  Forall (fun unit => is_Some (spec_unit_code unit)) units →
  is_Some (spec_slot units i).
Proof.
  intros Hcodes. unfold spec_slot.
  destruct (Nat.ltb_spec (i mod ARMY_MAX_SIZE) (length units)) as [Hin|Hout]; [|done].
  destruct (lookup_lt_is_Some_2 units (length units - i mod ARMY_MAX_SIZE - 1))
    as [unit Hunit]; [lia|].
  rewrite Hunit. simpl. by apply (Forall_lookup_1 _ _ _ _ Hcodes Hunit).
Qed.

Lemma codes_of_slots (units : list Monster) (slots : list nat) :
  Forall (fun unit => is_Some (spec_unit_code unit)) units →
  ∃ entries,
    map (spec_slot units) slots = Some <$> entries
    ∧ Forall2 (fun j entry => spec_slot units j = Some entry) slots entries.
Proof.
  intros Hcodes. induction slots as [|j slots (entries & Hmap & Hall)].
  - by exists [].
  - destruct (every_slot_has_a_code units j Hcodes) as [entry Hentry].
    exists (entry :: entries). simpl. rewrite Hmap, Hentry. by split; [|constructor].
Qed.

(** X25.  When every unit of the army is named by one entry of its
    table and no other, an ordinary unit up to position 127 of the
    canonical monster list and a hero up to position 126 of the hero
    templates, the setup text of the army is an array of
    [ARMY_MAX_SIZE * TOURNAMENT_LINES] entries; entry [i] is, in the
    columns [i mod ARMY_MAX_SIZE] below the unit count, the code of the
    unit at position [unitCount - (i mod ARMY_MAX_SIZE) - 1], and the
    empty-slot sentinel in the other columns.  The code of an ordinary
    unit is its position in the canonical monster list; the code of a
    hero is [-(position + 2)] for the position of its base name in the
    hero templates, whatever its level.  What the tables hold on other
    units does not matter. *)
Theorem replay_setup_slots (w : World) (setup : Army) (units : list Monster) :
  resolves w setup units →
  Forall (fun unit => ∃ k, named_once_at unit k ∧ code_fits unit k) units →
  ∃ entries,
    getReplaySetup setup w = Returns (array_text entries)
    ∧ length entries = ARMY_MAX_SIZE * TOURNAMENT_LINES
    ∧ ∀ i, i < ARMY_MAX_SIZE * TOURNAMENT_LINES →
           entries !! i = spec_slot units i.
Proof.
  intros Hres Hnamed.
  assert (Hcodes : Forall (fun unit => is_Some (spec_unit_code unit)) units).
  { eapply Forall_impl; [exact Hnamed|]. intros unit (k & Hk & Hfit).
    destruct (monster_number_is_code unit k Hk Hfit) as (code & -> & _). by eexists. }
  destruct (codes_of_slots units (seq 0 (ARMY_MAX_SIZE * TOURNAMENT_LINES)) Hcodes)
    as (entries & Hmap & Hall).
  assert (Hlen : length entries = ARMY_MAX_SIZE * TOURNAMENT_LINES).
  { by rewrite <- (Forall2_length _ _ _ Hall), length_seq. }
  exists entries. split; [|split; [done|]].
  - unfold getReplaySetup, array_text. rewrite <- Hlen.
    rewrite (setup_loop_text w setup entries 0 "["); [|lia|].
    + simpl. by rewrite string_app_assoc.
    + rewrite Hlen. eapply Forall2_impl; [exact Hall|].
      intros j entry Hslot. by apply (slot_is_code w setup units).
  - intros i Hi.
    destruct (lookup_lt_is_Some_2 entries i) as [entry Hentry]; [lia|].
    rewrite Hentry. symmetry.
    eapply (Forall2_lookup_lr _ _ _ i i entry Hall); [|done].
    by rewrite lookup_seq_lt.
Qed.





End ReplaySetupFacts.

(** A hero of level 5 behind a panda, on five lines of six slots: the
    hero comes first in every line, then the panda, then empty slots. *)
Lemma replay_setup_slots_witness :
  ∃ entries,
    getReplaySetup (H := Sample.constants) (H0 := Sample.databases)
      {| monsters := [0%Z; 2%Z] |}
      (set_monsterReference
         [Sample.panda; Sample.wolf;
          {| name := "hero1"; baseName := "hero1"; rarity := HERO_RARITY 0; level := 5%Z |}]
         (Sample.interactive []))
    = Returns (array_text entries)
    ∧ length entries = 30
    ∧ ∀ i, i < 30 →
           entries !! i
           = spec_slot (H := Sample.constants) (H0 := Sample.databases)
               [Sample.panda;
                {| name := "hero1"; baseName := "hero1"; rarity := HERO_RARITY 0;
                   level := 5%Z |}] i.
Proof.
  apply (replay_setup_slots (H := Sample.constants) (H0 := Sample.databases)).
  - repeat constructor.
  - apply Forall_cons; split; [|apply Forall_cons; split; [|by apply Forall_nil]];
      exists 0; (split; [split; [by eexists|]|unfold code_fits; simpl; lia]);
      intros [|[|j]] entry; simpl; intros [= <-]; done.
Defined.

(** C3.  With 128 hero templates, the army of the one hero whose base
    name is that of the last template, at position 127: the setup that
    the claim describes has -129 in the first column of each of the five
    lines, and the sentinel -1 in the other columns.  The code is worked
    out as [-i - 2] and then kept in an [int8_t] (line 293), which has no
    -129: the text that [getReplaySetup] returns has 127 in these places,
    a number that the format reads as an ordinary unit. *)
Theorem replay_setup_last_of_128_templates :
  getReplaySetup (H := Sample.constants) (H0 := Sample.crowded)
    {| monsters := [0%Z] |}
    (set_monsterReference [Sample.template 127] (Sample.interactive []))
  = Returns (array_text (concat (replicate 5 [127; -1; -1; -1; -1; -1]%Z)))
  ∧ map (spec_slot (H := Sample.constants) (H0 := Sample.crowded) [Sample.template 127])
      (seq 0 30)
    = Some <$> concat (replicate 5 [-129; -1; -1; -1; -1; -1]%Z).
Proof. split; vm_compute; reflexivity. Qed.


(** * Further properties *)

(** ** [split] and [toLower] *)

Lemma substring_nil (n m : nat) : substring n m "" = "".
Proof. by destruct n, m. Qed.

Lemma substring_of_front (s : string) (p k m : nat) :
  p + k ≤ m → substring p k (substring 0 m s) = substring p k s.
Proof.
  revert p k m. induction s as [|c s IH]; intros p k m Hle.
  - by rewrite !substring_nil.
  - destruct m as [|m].
    + assert (p = 0) as -> by lia. assert (k = 0) as -> by lia. done.
    + cbn [substring]. destruct p as [|p].
      * destruct k as [|k]; [done|]. cbn [substring]. f_equal.
        apply (IH 0 k m). lia.
      * cbn [substring]. apply IH. lia.
Qed.

Lemma substring_of_substring (s : string) (n m p k : nat) :
  p + k ≤ m → substring p k (substring n m s) = substring (n + p) k s.
Proof.
  revert s. induction n as [|n IH]; intros s Hle.
  - by apply substring_of_front.
  - destruct s as [|c s]; [by rewrite !substring_nil|].
    cbn [substring Nat.add]. by apply IH.
Qed.

(** A piece that [split] cuts out holds no occurrence of the separator. *)
Lemma piece_has_no_separator (target separator : string) (start : nat) :
  separator ≠ "" →
  start ≤ String.length target →
  Std.find
    (substring start
       (default (String.length target - start)
          (Std.count_sub (Std.find target separator start) start))
       target)
    separator 0
  = None.
Proof.
  intros Hsep Hstart.
  assert (Hpos : 0 < String.length separator) by (destruct separator; [done|simpl; lia]).
  match goal with |- Std.find ?piece _ _ = _ =>
    destruct (Std.find piece separator 0) as [p|] eqn:Hin; [|done];
    assert (Hlen : String.length piece
                   = match Std.find target separator start with
                     | Some occ => occ - start
                     | None => String.length target - start
                     end)
  end.
  { rewrite substring_length.
    destruct (Std.find target separator start) as [occ|] eqn:Hfind; simpl; [|lia].
    apply find_bounds in Hfind as [Hle Hend]. specialize (Hend Hsep).
    destruct (Nat.ltb_spec occ start); simpl; lia. }
  pose proof (find_bounds _ _ _ _ Hin) as [_ Hfit]. specialize (Hfit Hsep).
  apply index_correct1 in Hin. rewrite Hlen in Hfit.
  destruct (Std.find target separator start) as [occ|] eqn:Hfind; simpl in *.
  - pose proof (find_bounds _ _ _ _ Hfind) as [Hle _].
    destruct (Nat.ltb_spec occ start); [lia|]. simpl in Hin.
    rewrite substring_of_substring in Hin by lia.
    by apply (index_correct2 _ _ _ _ Hfind (start + p)) in Hin; [|lia..].
  - rewrite substring_of_substring in Hin by lia.
    by apply (index_correct3 _ (start + p) _ _ Hfind) in Hin; [|done|lia].
Qed.

Lemma split_loop_pieces (separator target : string) (fuel start : nat)
    (output result : list string) :
  separator ≠ "" →
  start ≤ String.length target →
  split_loop fuel target separator start output = Returns result →
  ∃ more,
    result = output ++ more
    ∧ Forall (fun piece => Std.find piece separator 0 = None) more
    ∧ (start ≠ 0 → Forall (fun piece => piece ≠ "") more).
Proof.
  intros Hsep. revert start output.
  assert (Hpos : 0 < String.length separator) by (destruct separator; [done|simpl; lia]).
  induction fuel as [|fuel IH]; intros start output Hstart;
    [by cbn [split_loop]; destruct (_ && _)|].
  cbn [split_loop]. unfold Std.substr.
  destruct (Nat.ltb_spec (String.length target) start) as [?|_]; [lia|].
  cbn [result_bind].
  pose proof (piece_has_no_separator target separator start Hsep Hstart) as Hclean.
  set (piece := substring start _ target) in *.
  assert (Hnext : ∀ output',
            match Std.find target separator start with
            | Some occ =>
                split_loop fuel target separator (occ + String.length separator) output'
            | None => Returns output'
            end = Returns result →
            ∃ more, result = output' ++ more
                    ∧ Forall (fun piece => Std.find piece separator 0 = None) more
                    ∧ Forall (fun piece => piece ≠ "") more).
  { intros output'. destruct (Std.find target separator start) as [occ|] eqn:Hfind.
    - apply find_bounds in Hfind as [Hle Hend]. specialize (Hend Hsep).
      intros Hrun. apply IH in Hrun as (more & -> & Hclean' & Hfull); [|lia].
      exists more. split; [done|]. split; [done|]. apply Hfull. lia.
    - intros [= <-]. exists []. by rewrite app_nil_r. }
  destruct (Nat.eqb_spec start 0) as [->|Hne]; cbn [orb].
  - intros Hrun. apply Hnext in Hrun as (more & -> & Hclean' & _).
    exists (piece :: more). rewrite <- app_assoc. split; [done|].
    split; [by constructor|done].
  - destruct (Nat.ltb_spec 0 (String.length piece)) as [Hfull|Hempty].
    + intros Hrun. apply Hnext in Hrun as (more & -> & Hclean' & Hfull').
      exists (piece :: more). rewrite <- app_assoc. split; [done|].
      split; [by constructor|]. intros _. constructor; [|done].
      intros ->. simpl in Hfull. lia.
    + intros Hrun. apply Hnext in Hrun as (more & -> & Hclean' & Hfull').
      by exists more.
Qed.

(** X1.  The pieces of a split: whatever [split] returns for a separator
    that is not empty, no piece holds the separator, and every piece
    after the first is not empty (empty fields are dropped, except a
    leading one). *)
Theorem split_pieces (target separator : string) (pieces : list string) :
  separator ≠ "" →
  split target separator = Returns pieces →
  Forall (fun piece => Std.find piece separator 0 = None) pieces
  ∧ Forall (fun piece => piece ≠ "") (tail pieces).
Proof.
  intros Hsep Hsplit.
  unfold split in Hsplit. cbn [split_loop] in Hsplit. unfold Std.substr in Hsplit.
  cbn [Nat.ltb Nat.leb result_bind Nat.eqb orb app] in Hsplit.
  pose proof (piece_has_no_separator target separator 0 Hsep (Nat.le_0_l _)) as Hclean.
  destruct (Std.find target separator 0) as [occ|] eqn:Hfind.
  - pose proof (find_bounds _ _ _ _ Hfind) as [_ Hend]. specialize (Hend Hsep).
    assert (0 < String.length separator) by (destruct separator; [done|simpl; lia]).
    apply split_loop_pieces in Hsplit as (more & -> & Hclean' & Hfull); [|done|lia].
    simpl. split; [by apply Forall_cons_2|]. apply Hfull. lia.
  - injection Hsplit as <-. simpl.
    split; [apply Forall_cons_2; [done|constructor]|constructor].
Qed.

Lemma split_pieces_witness :
  Forall (fun piece => Std.find piece "," 0 = None) ["panda"; "wolf"; "hero1:5"]
  ∧ Forall (fun piece => piece ≠ "") (tail ["panda"; "wolf"; "hero1:5"]).
Proof.
  apply (split_pieces "panda,,wolf,hero1:5," ","); [discriminate|].
  vm_compute. reflexivity.
Defined.

Lemma split_absent (target separator : string) :
  Std.find target separator 0 = None → split target separator = Returns [target].
Proof.
  intros Hfind. unfold split. cbn [split_loop]. unfold Std.substr. rewrite Hfind.
  simpl. by rewrite Nat.sub_0_r, substring_whole.
Qed.


Lemma toLower_length (input : string) :
  String.length (toLower input) = String.length input.
Proof. induction input as [|c input IH]; simpl; [done|]. by rewrite IH. Qed.

Lemma tolower_facts (c : ascii) :
  Std.tolower (Std.tolower c) = Std.tolower c
  ∧ ¬ (65 ≤ nat_of_ascii (Std.tolower c) ≤ 90)
  ∧ (¬ (65 ≤ nat_of_ascii c ≤ 90) → Std.tolower c = c).
Proof.
  destruct c as [[] [] [] [] [] [] [] []]; vm_compute; (split; [done|]); split; lia || done.
Qed.

Lemma toLower_idempotent (input : string) : toLower (toLower input) = toLower input.
Proof.
  induction input as [|c input IH]; simpl; [done|].
  by rewrite IH, (proj1 (tolower_facts c)).
Qed.

Lemma toLower_substring (input : string) (n m : nat) :
  toLower (substring n m input) = substring n m (toLower input).
Proof.
  revert n m. induction input as [|c input IH]; intros n m.
  - by rewrite !substring_nil.
  - destruct n as [|n]; simpl.
    + destruct m as [|m]; simpl; [done|]. by rewrite IH.
    + apply IH.
Qed.

(** X3.  [toLower] keeps the length of its input, leaves no capital
    letter of the basic alphabet behind, does not change a text without
    such letters, and applying it twice is applying it once. *)
Theorem toLower_facts (input : string) :
  String.length (toLower input) = String.length input
  ∧ Forall (fun c => ¬ (65 ≤ nat_of_ascii c ≤ 90)) (list_ascii_of_string (toLower input))
  ∧ (Forall (fun c => ¬ (65 ≤ nat_of_ascii c ≤ 90)) (list_ascii_of_string input) →
     toLower input = input)
  ∧ toLower (toLower input) = toLower input.
Proof.
  split; [apply toLower_length|]. split; [|split; [|apply toLower_idempotent]].
  - induction input as [|c input IH]; simpl; constructor; [|done].
    apply tolower_facts.
  - induction input as [|c input IH]; simpl; [done|].
    intros Hall. apply Forall_cons in Hall as [Hc Hall].
    by rewrite IH, (proj2 (proj2 (tolower_facts c)) Hc).
Qed.

(** ** More on the query loop *)

Section QueryLoopMore.
Context `{Constants}.

Lemma split_front_piece (target separator : string) (pieces : list string)
    (first : string) :
  separator ≠ "" →
  split target separator = Returns pieces →
  Std.front pieces = Returns first →
  Std.find first separator 0 = None
  ∧ ∃ n, first = substring 0 n target.
Proof.
  intros Hsep Hsplit Hfront.
  destruct (split_front target separator Hsep) as [rest Hknown].
  rewrite Hsplit in Hknown. injection Hknown as ->. injection Hfront as <-.
  pose proof (piece_has_no_separator target separator 0 Hsep (Nat.le_0_l _)) as Hclean.
  destruct (Std.find target separator 0) as [occ|]; simpl in Hclean;
    rewrite Nat.sub_0_r in Hclean.
  - split; [done|]. by exists occ.
  - rewrite substring_whole in Hclean. split; [done|].
    exists (String.length target). by rewrite substring_whole.
Qed.

(** X4.  A normalized line is in lower case and holds no comment
    delimiter, its first token holds no token separator, and normalizing
    it again gives the same line and the same first token. *)
Theorem normalize_is_stable (line inputString firstToken : string) :
  COMMENT_DELIMITOR ≠ "" →
  TOKEN_SEPARATOR ≠ "" →
  normalize line = Returns (inputString, firstToken) →
  toLower inputString = inputString
  ∧ Std.find inputString COMMENT_DELIMITOR 0 = None
  ∧ Std.find firstToken TOKEN_SEPARATOR 0 = None
  ∧ normalize inputString = Returns (inputString, firstToken).
Proof.
  intros Hcomment Htoken. unfold normalize.
  destruct (split (toLower line) COMMENT_DELIMITOR) as [uncommented| | |] eqn:Hfirst;
    try done. cbn [result_bind].
  destruct (Std.front uncommented) as [text| | |] eqn:Htext; try done.
  cbn [result_bind].
  destruct (split text TOKEN_SEPARATOR) as [tokens| | |] eqn:Hsecond; try done.
  cbn [result_bind].
  destruct (Std.front tokens) as [token| | |] eqn:Htoken'; try done.
  cbn [result_bind]. intros [= <- <-].
  destruct (split_front_piece _ _ _ _ Hcomment Hfirst Htext) as [Hclean [n Hcut]].
  destruct (split_front_piece _ _ _ _ Htoken Hsecond Htoken') as [Hclean' _].
  assert (Hlower : toLower text = text).
  { by rewrite Hcut, toLower_substring, toLower_idempotent. }
  repeat split; try done.
  rewrite Hlower, (split_absent text COMMENT_DELIMITOR Hclean). cbn [Std.front result_bind].
  rewrite Hsecond. cbn [result_bind]. by rewrite Htoken'.
Qed.

Lemma question_answer_cases (fuel : nat) (query help : string)
    (w : World) (text : string) (w' : World) :
  getResistantInput fuel query help question w = (Returns text, w') →
  text = POSITIVE_ANSWER ∨ text = NEGATIVE_ANSWER.
Proof.
  intros Hcall. apply answered_line in Hcall as (line & s & token & _ & _ & Hanswer).
  simpl in Hanswer.
  destruct (String.eqb_spec token POSITIVE_ANSWER) as [Hp|?];
    [|destruct (String.eqb_spec token NEGATIVE_ANSWER) as [Hn|?]];
    simpl in Hanswer; try done; injection Hanswer as <-; auto.
Qed.

(** X5.  For [QueryType = question] the call returns nothing but the
    positive or the negative answer. *)
Theorem question_answer_is_literal (fuel : nat) (query help : string)
    (w : World) (text : string) (w' : World) :
  getResistantInput fuel query help question w = (Returns text, w') →
  text = POSITIVE_ANSWER ∨ text = NEGATIVE_ANSWER.
Proof. apply question_answer_cases. Qed.

Lemma normalize_empty :
  COMMENT_DELIMITOR ≠ "" → TOKEN_SEPARATOR ≠ "" → normalize "" = Returns ("", "").
Proof.
  intros Hcomment Htoken. unfold normalize. simpl toLower.
  rewrite (split_absent "" COMMENT_DELIMITOR) by (by destruct COMMENT_DELIMITOR).
  cbn [Std.front result_bind].
  by rewrite (split_absent "" TOKEN_SEPARATOR) by (by destruct TOKEN_SEPARATOR).
Qed.

(** A round on a console that has nothing left, after a round that left
    [inputString] empty. *)
Lemma exhausted_round (query help : string) (queryType : QueryType) (w : World) :
  COMMENT_DELIMITOR ≠ "" → TOKEN_SEPARATOR ≠ "" →
  useMacroFile w = false →
  pending (cin w) = [] → partial (cin w) = "" →
  ∃ w',
    getResistantInput_round query help queryType "" w
    = (Returns (answer queryType "" "", ""), w')
    ∧ useMacroFile w' = false ∧ pending (cin w') = [] ∧ partial (cin w') = "".
Proof.
  intros Hcomment Htoken Hoff Hpending Hpartial.
  unfold getResistantInput_round. rewrite read_line_console by done.
  assert (Hline : (getline (cin w) "").2 = ""
                  ∧ pending (getline (cin w) "").1.2 = []
                  ∧ partial (getline (cin w) "").1.2 = "").
  { unfold getline. rewrite Hpending, Hpartial. by destruct (good (cin w)). }
  destruct Hline as (-> & Hpending' & Hpartial').
  rewrite normalize_empty by done. unfold echo_line. simpl. rewrite Hoff. simpl.
  eexists. split; [done|]. simpl. by rewrite Hoff.
Qed.

(** X6.  A console that has nothing left answers every read with the
    empty line.  A [raw] or [rawFirst] query returns the empty text at
    once; an [integer] query finds no number in it and never comes back,
    whatever the fuel. *)
Theorem exhausted_console (fuel : nat) (query help : string) (w : World) :
  COMMENT_DELIMITOR ≠ "" → TOKEN_SEPARATOR ≠ "" →
  useMacroFile w = false →
  pending (cin w) = [] → partial (cin w) = "" →
  (getResistantInput (S fuel) query help raw w).1 = Returns ""
  ∧ (getResistantInput (S fuel) query help rawFirst w).1 = Returns ""
  ∧ (getResistantInput fuel query help integer w).1 = OutOfFuel.
Proof.
  intros Hcomment Htoken Hoff Hpending Hpartial. unfold getResistantInput.
  split; [|split].
  - destruct (exhausted_round query help raw w) as (w' & Hround & _); try done.
    simpl. unfold M_bind. by rewrite Hround.
  - destruct (exhausted_round query help rawFirst w) as (w' & Hround & _); try done.
    simpl. unfold M_bind. by rewrite Hround.
  - revert w Hoff Hpending Hpartial.
    induction fuel as [|fuel IH]; intros w Hoff Hpending Hpartial; [done|].
    destruct (exhausted_round query help integer w) as (w' & Hround & ? & ? & ?);
      try done.
    simpl. unfold M_bind. rewrite Hround. simpl. by apply IH.
Qed.

(** A round that reads a line of the macro file whose first token is not
    [help]. *)
Lemma script_round (query help : string) (queryType : QueryType)
    (inputString0 line : string) (rest : list string) (w : World)
    (inputString firstToken : string) :
  useMacroFile w = true →
  eofbit (macroFile w) = false → failbit (macroFile w) = false →
  pending (macroFile w) = line :: rest →
  normalize line = Returns (inputString, firstToken) →
  firstToken ≠ "help" →
  getResistantInput_round query help queryType inputString0 w
  = (Returns (answer queryType inputString firstToken, inputString),
     let w1 :=
       set_useMacroFile true
         (set_macroFile {| pending := rest; partial := partial (macroFile w);
                           eofbit := false; failbit := false |} w) in
     if showQueries w then print endl (print inputString (print query w1)) else w1).
Proof.
  intros Hon Heof Hfail Hpending Hnormal Hne.
  unfold getResistantInput_round, read_line. rewrite Hon.
  unfold getline, good. rewrite Heof, Hfail, Hpending. simpl.
  destruct (showQueries w) eqn:Hshow; simpl; rewrite Hnormal; unfold echo_line; simpl;
    rewrite ?Hshow; simpl; by destruct (String.eqb_spec firstToken "help").
Qed.

Lemma silent_script_run (lines answers : list string)
    (prompts : list (string * string)) (more : list string) (w : World) :
  useMacroFile w = true → showQueries w = false →
  eofbit (macroFile w) = false → failbit (macroFile w) = false →
  pending (macroFile w) = lines ++ more →
  length prompts = length lines →
  Forall2 (fun line a => ∃ token, normalize line = Returns (a, token) ∧ token ≠ "help")
    lines answers →
  ∃ w',
    ask_all 1 (map (fun prompt => (prompt.1, prompt.2, raw)) prompts) w
    = (Returns answers, w')
    ∧ pending (macroFile w') = more
    ∧ useMacroFile w' = true
    ∧ cout w' = cout w ∧ cin w' = cin w.
Proof.
  intros Hon Hsilent Heof Hfail Hpending Hlen Hlines.
  revert prompts w Hon Hsilent Heof Hfail Hpending Hlen.
  induction Hlines as [|line a lines answers (token & Hnormal & Hne) _ IH];
    intros prompts w Hon Hsilent Heof Hfail Hpending Hlen.
  - destruct prompts; [|done]. exists w. simpl in Hpending. by rewrite Hpending.
  - destruct prompts as [|[query help] prompts]; [done|].
    cbn [map ask_all fst snd]. unfold M_bind at 1, getResistantInput.
    cbn [getResistantInput_loop]. unfold M_bind at 1.
    rewrite (script_round query help raw "" line (lines ++ more) w a token)
      by done.
    rewrite Hsilent. cbn [answer M_ret].
    set (w1 := set_useMacroFile _ _).
    destruct (IH prompts w1) as (w' & Hrest & ? & ? & ? & ?); try done.
    { simpl in Hlen. lia. }
    unfold M_bind. rewrite Hrest. exists w'. by unfold M_ret.
Qed.

(** X7.  A macro file that is not shown answers in silence: [raw]
    queries, as many as the file has lines, return the normalized lines
    in their order, none of them is asked on the screen, nothing is
    printed and the console is not read.  (Lines whose first token is
    [help] are left aside.) *)
Theorem silent_script_answers (lines answers : list string)
    (prompts : list (string * string)) (more : list string) (w : World) :
  useMacroFile w = true → showQueries w = false →
  eofbit (macroFile w) = false → failbit (macroFile w) = false →
  pending (macroFile w) = lines ++ more →
  length prompts = length lines →
  Forall2 (fun line a => ∃ token, normalize line = Returns (a, token) ∧ token ≠ "help")
    lines answers →
  ∃ w',
    ask_all 1 (map (fun prompt => (prompt.1, prompt.2, raw)) prompts) w
    = (Returns answers, w')
    ∧ pending (macroFile w') = more
    ∧ useMacroFile w' = true
    ∧ cout w' = cout w ∧ cin w' = cin w.
Proof. apply silent_script_run. Qed.

End QueryLoopMore.

Lemma normalize_is_stable_witness :
  toLower "panda,wolf " = "panda,wolf "
  ∧ Std.find "panda,wolf " "//" 0 = None
  ∧ Std.find "panda,wolf" " " 0 = None
  ∧ normalize (H := Sample.constants) "panda,wolf " = Returns ("panda,wolf ", "panda,wolf").
Proof.
  apply (normalize_is_stable (H := Sample.constants) "Panda,Wolf // the first quest");
    (discriminate || (vm_compute; reflexivity)).
Defined.

Lemma question_answer_is_literal_witness :
  "n" = @POSITIVE_ANSWER Sample.constants ∨ "n" = @NEGATIVE_ANSWER Sample.constants.
Proof.
  eapply (question_answer_is_literal (H := Sample.constants) 3 "Again? " ""
            (Sample.interactive ["maybe"; "N"])).
  vm_compute. reflexivity.
Defined.

Lemma exhausted_console_witness :
  (getResistantInput (H := Sample.constants) 1 "Lineup: " "" raw
     (Sample.interactive [])).1 = Returns ""
  ∧ (getResistantInput (H := Sample.constants) 1 "Lineup: " "" rawFirst
       (Sample.interactive [])).1 = Returns ""
  ∧ (getResistantInput (H := Sample.constants) 0 "Lineup: " "" integer
       (Sample.interactive [])).1 = OutOfFuel.
Proof.
  apply (exhausted_console (H := Sample.constants) 0 "Lineup: " ""
           (Sample.interactive []));
    (discriminate || reflexivity).
Defined.

Lemma silent_script_answers_witness :
  ∃ w',
    ask_all (H := Sample.constants) 1
      (map (fun prompt => (prompt.1, prompt.2, raw))
         [("Lineup: ", "monsters"); ("Heroes: ", "heroes")])
      (Sample.scripted ["Panda,Wolf // target"; "hero1:5"; "y"] ["typed"])
    = (Returns ["panda,wolf "; "hero1:5"], w')
    ∧ pending (macroFile w') = ["y"]
    ∧ useMacroFile w' = true
    ∧ cout w' = [] ∧ cin w' = Sample.console ["typed"].
Proof.
  apply (silent_script_answers (H := Sample.constants)
           ["Panda,Wolf // target"; "hero1:5"] ["panda,wolf "; "hero1:5"]
           [("Lineup: ", "monsters"); ("Heroes: ", "heroes")] ["y"]
           (Sample.scripted ["Panda,Wolf // target"; "hero1:5"; "y"] ["typed"]));
    try reflexivity.
  repeat constructor; eexists; (split; [vm_compute; reflexivity|discriminate]).
Defined.

(** ** The macro file, the yes/no question and the output methods *)

Section ManagerFacts.
Context `{Constants} `{OutputConstants}.

(** X8.  [initMacroFile] switches script mode on exactly when the file
    could be opened, and queries are shown only in script mode.  When the
    file could not be opened the message is printed once, and every query
    asked afterwards leaves script mode off and neither reads nor changes
    the stream of the file.  When it could be opened and is not shown,
    [raw] queries get the normalized lines of the file in their order and
    nothing is printed. *)
Theorem initMacroFile_modes (opened : istream) (showInput : bool) (w : World) :
  let w' := initMacroFile opened showInput w in
  useMacroFile w' = good opened
  ∧ showQueries w' = good opened && showInput
  ∧ macroFile w' = opened
  ∧ (good opened = false →
     cout w' = cout w ++ ["Could not find Macro File. Switching to Manual Input."; endl]
     ∧ ∀ fuel queries,
         useMacroFile (ask_all fuel queries w').2 = false
         ∧ ∀ file, ask_all fuel queries (set_macroFile file w')
                   = ((ask_all fuel queries w').1,
                      set_macroFile file (ask_all fuel queries w').2))
  ∧ (good opened = true → showInput = false →
     cout w' = cout w
     ∧ ∀ lines answers prompts more,
         pending opened = lines ++ more →
         length prompts = length lines →
         Forall2 (fun line a => ∃ token, normalize line = Returns (a, token)
                                         ∧ token ≠ "help") lines answers →
         ∃ w'',
           ask_all 1 (map (fun prompt => (prompt.1, prompt.2, raw)) prompts) w'
           = (Returns answers, w'')
           ∧ cout w'' = cout w ∧ cin w'' = cin w).
Proof.
  intros w'. subst w'. unfold initMacroFile.
  destruct (good opened) eqn:Hgood; simpl.
  - do 4 (split; [done|]). intros _ ->. split; [done|].
    intros lines answers prompts more Hpending Hlen Hlines.
    unfold good in Hgood. apply andb_true_iff in Hgood as [Heof Hfail].
    apply negb_true_iff in Heof, Hfail.
    match goal with |- context [ask_all 1 _ ?w1] =>
      destruct (silent_script_run lines answers prompts more w1)
        as (w'' & Hrun & _ & _ & ? & ?); try done
    end.
    by exists w''.
  - do 3 (split; [done|]). split; [|done]. intros _.
    split; [by rewrite <- app_assoc|].
    intros fuel queries. by apply ask_all_console_only.
Qed.

(** X9.  [askYesNoQuestion] asks nothing when the urgency is above the
    output level: the state is left as it is and the default answer
    decides.  When it asks, the answer it gets is one of the two
    literals.  In both cases the result is [true] only for the positive
    literal, and never when the two literals are the same text. *)
Theorem askYesNoQuestion_result (fuel : nat) (questionMessage help : string)
    (urgency : Z) (defaultAnswer : string) (this : Manager) (w : World) :
  ((outputLevel this < urgency)%Z →
   askYesNoQuestion fuel questionMessage help urgency defaultAnswer this w
   = (Returns (bool_decide (defaultAnswer = POSITIVE_ANSWER
                            ∧ POSITIVE_ANSWER ≠ NEGATIVE_ANSWER)), w))
  ∧ ((urgency ≤ outputLevel this)%Z →
     ∀ b w',
       askYesNoQuestion fuel questionMessage help urgency defaultAnswer this w
       = (Returns b, w') →
       ∃ text,
         getResistantInput fuel
           (questionMessage +:+ " (" +:+ POSITIVE_ANSWER +:+ "/" +:+ NEGATIVE_ANSWER
            +:+ "): ")
           help question w
         = (Returns text, w')
         ∧ (text = POSITIVE_ANSWER ∨ text = NEGATIVE_ANSWER)
         ∧ b = bool_decide (text = POSITIVE_ANSWER
                            ∧ POSITIVE_ANSWER ≠ NEGATIVE_ANSWER)).
Proof.
  assert (Hdecide : ∀ text,
            (if String.eqb text NEGATIVE_ANSWER then M_ret false
             else if String.eqb text POSITIVE_ANSWER then M_ret true
                  else M_ret false)
            = M_ret (bool_decide (text = POSITIVE_ANSWER
                                  ∧ POSITIVE_ANSWER ≠ NEGATIVE_ANSWER))).
  { intros text.
    destruct (String.eqb_spec text NEGATIVE_ANSWER) as [->|Hn];
      [|destruct (String.eqb_spec text POSITIVE_ANSWER) as [->|Hp]].
    - rewrite bool_decide_eq_false_2; [done|]. intros [-> ?]. done.
    - rewrite bool_decide_eq_true_2; [done|]. split; congruence.
    - rewrite bool_decide_eq_false_2; [done|]. by intros [? _]. }
  unfold askYesNoQuestion, shouldOutput. split.
  - intros Hquiet. destruct (Z.leb_spec urgency (outputLevel this)); [lia|].
    simpl. unfold M_bind, M_ret at 1. by rewrite Hdecide.
  - intros Hloud b w' Hcall. destruct (Z.leb_spec urgency (outputLevel this)); [|lia].
    simpl in Hcall. unfold M_bind in Hcall.
    destruct (getResistantInput fuel _ help question w) as [[text| | |] w1] eqn:Hask;
      try done.
    rewrite Hdecide in Hcall. injection Hcall as <- <-.
    exists text. split; [done|]. split; [|done].
    by eapply question_answer_cases.
Qed.

Lemma spaces_length (n : nat) : String.length (spaces n) = n.
Proof. induction n as [|n IH]; simpl; [done|]. by rewrite IH. Qed.

Lemma setw_left_length (width : Z) (text : string) :
  Z.of_nat (String.length (setw_left width text))
  = Z.max width (Z.of_nat (String.length text)).
Proof. unfold setw_left. rewrite string_app_length, spaces_length. lia. Qed.

Lemma setw_right_length (width : Z) (text : string) :
  Z.of_nat (String.length (setw_right width text))
  = Z.max width (Z.of_nat (String.length text)).
Proof. unfold setw_right. rewrite string_app_length, spaces_length. lia. Qed.

Lemma short_decimal (z : Z) :
  (-99 ≤ z ≤ 999)%Z → String.length (Std.to_string z) ≤ 3.
Proof.
  intros Hrange.
  assert (Hall : forallb (fun n => String.length (Std.to_string (Z.of_nat n - 99)) <=? 3)
                   (seq 0 1099) = true) by (vm_compute; reflexivity).
  rewrite forallb_forall in Hall.
  specialize (Hall (Z.to_nat (z + 99))).
  replace (Z.of_nat (Z.to_nat (z + 99)) - 99)%Z with z in Hall by lia.
  apply Nat.leb_le, Hall, in_seq. lia.
Qed.

(** X10.  The text that [finishTimedOutput] prints is as long as line 6
    and the comment on line 66 say, 20 characters, when the time that
    went by has at most three characters (from -99 to 999 seconds); the
    buffer is empty afterwards. *)
Theorem finish_message_length (now urgency : Z) (this : Manager) (w : World) :
  outputStream this = "" →
  (urgency ≤ outputLevel this)%Z →
  (-99 ≤ now - lastTimedOutput this ≤ 999)%Z →
  ∃ text,
    cout (finishTimedOutput now urgency (this, w)).2 = cout w ++ [text]
    ∧ String.length text = FINISH_MESSAGE_LENGTH
    ∧ outputStream (finishTimedOutput now urgency (this, w)).1 = "".
Proof.
  intros Hempty Hloud Hrange.
  unfold finishTimedOutput, printBuffer, shouldOutput. simpl.
  destruct (Z.leb_spec urgency (outputLevel this)); [|lia].
  rewrite Hempty. simpl. eexists. split; [done|]. split; [|done].
  change ("" +:+ "Done! (" +:+ ?rest) with ("Done! (" +:+ rest).
  rewrite !string_app_length.
  pose proof (setw_right_length 3 (Std.to_string (now - lastTimedOutput this))) as Hwidth.
  pose proof (short_decimal _ Hrange). unfold FINISH_MESSAGE_LENGTH. simpl. lia.
Qed.

(** X11.  A timed message and its end fill one line of the screen: when
    no timed message is open (or [reset] is set), the indented message
    fits in front of the end text and the time that goes by is below 1000
    seconds, [timedOutput] followed by [finishTimedOutput] prints two
    texts that are [STANDARD_CMD_WIDTH] characters together. *)
Theorem timed_line_width (message : string) (urgency indent : Z) (reset : bool)
    (finishNow startNow endNow : Z) (this : Manager) (w : World) :
  outputStream this = "" →
  (urgency ≤ outputLevel this)%Z →
  (lastTimedOutput this < 0)%Z ∨ reset = true →
  (0 ≤ indent * INDENT_WIDTH)%Z →
  (indent * INDENT_WIDTH + Z.of_nat (String.length message)
   ≤ STANDARD_CMD_WIDTH - Z.of_nat FINISH_MESSAGE_LENGTH)%Z →
  (0 ≤ endNow - startNow ≤ 999)%Z →
  ∃ state first second,
    timedOutput message urgency indent reset finishNow startNow (this, w) = Some state
    ∧ cout (finishTimedOutput endNow urgency state).2 = cout w ++ [first; second]
    ∧ (Z.of_nat (String.length first + String.length second) = STANDARD_CMD_WIDTH)%Z.
Proof.
  intros Hempty Hloud Hclosed Hindent Hfits Hrange.
  unfold timedOutput. cbn [fst].
  assert (Hskip : (0 <=? lastTimedOutput this)%Z && negb reset = false).
  { destruct Hclosed as [?| ->]; [|by rewrite andb_false_r].
    by destruct (Z.leb_spec 0 (lastTimedOutput this)); [lia|]. }
  rewrite Hskip. unfold getIndent.
  destruct (Z.ltb_spec (indent * INDENT_WIDTH) 0); [lia|].
  eexists _, _, _. split; [done|].
  unfold finishTimedOutput, printBuffer, shouldOutput. simpl.
  destruct (Z.leb_spec urgency (outputLevel this)); [|lia].
  rewrite Hempty. simpl. split; [by rewrite <- app_assoc|].
  change ("" +:+ "Done! (" +:+ ?rest) with ("Done! (" +:+ rest).
  change ("" +:+ ?rest) with rest.
  rewrite Nat2Z.inj_add, setw_left_length, !string_app_length, spaces_length.
  pose proof (setw_right_length 3 (Std.to_string (endNow - startNow))) as Hwidth.
  pose proof (short_decimal (endNow - startNow)). unfold FINISH_MESSAGE_LENGTH in *.
  simpl. lia.
Qed.

Lemma printBuffer_quiet (urgency : Z) (this : Manager) (w : World) :
  (outputLevel this < urgency)%Z →
  printBuffer urgency (this, w) = (set_outputStream "" this, w).
Proof.
  intros Hquiet. unfold printBuffer, shouldOutput.
  by destruct (Z.leb_spec urgency (outputLevel this)); [lia|].
Qed.

(** X12.  No output method prints above the output level, and each of
    them leaves the buffer empty and the level as it was: with an urgency
    above the level the screen is what it was before the call. *)
Theorem quiet_above_the_level (message : string) (urgency indent : Z)
    (flag : bool) (now now' : Z) (this : Manager) (w : World) :
  (outputLevel this < urgency)%Z →
  (∀ state, outputMessage message urgency indent flag (this, w) = Some state →
            state.2 = w ∧ outputStream state.1 = ""
            ∧ outputLevel state.1 = outputLevel this)
  ∧ (∀ state, timedOutput message urgency indent flag now now' (this, w) = Some state →
              state.2 = w ∧ outputStream state.1 = ""
              ∧ outputLevel state.1 = outputLevel this
              ∧ lastTimedOutput state.1 = now')
  ∧ finishTimedOutput now urgency (this, w)
    = (set_outputStream "" this, w)
  ∧ suspendTimedOutputs urgency (this, w) = (set_outputStream "" this, w)
  ∧ resumeTimedOutputs urgency (this, w) = (set_outputStream "" this, w).
Proof.
  intros Hquiet.
  assert (Hfinish : finishTimedOutput now urgency (this, w) = (set_outputStream "" this, w)).
  { unfold finishTimedOutput. by rewrite printBuffer_quiet. }
  split; [|split; [|split; [done|split]]].
  - intros state Hcall. unfold outputMessage in Hcall.
    destruct (getIndent indent) as [blanks|]; [|done].
    rewrite printBuffer_quiet in Hcall by (by destruct flag).
    injection Hcall as <-. by destruct flag.
  - intros state Hcall. unfold timedOutput in Hcall. cbn [fst] in Hcall.
    rewrite Hfinish in Hcall.
    destruct ((0 <=? lastTimedOutput this)%Z && negb flag);
      destruct (getIndent indent) as [blanks|]; try done;
      rewrite printBuffer_quiet in Hcall by done; by injection Hcall as <-.
  - unfold suspendTimedOutputs. by rewrite printBuffer_quiet.
  - unfold resumeTimedOutputs. by rewrite printBuffer_quiet.
Qed.

End ManagerFacts.

Lemma initMacroFile_modes_witness :
  useMacroFile (initMacroFile Sample.closed true (Sample.interactive ["panda"])) = false
  ∧ (getResistantInput (H := Sample.constants) 1 "Lineup: " "" raw
       (initMacroFile Sample.closed true (Sample.interactive ["panda"]))).1
    = Returns "panda".
Proof.
  destruct (initMacroFile_modes (H := Sample.constants) Sample.closed true
              (Sample.interactive ["panda"])) as (Hmode & _).
  split; [exact Hmode|vm_compute; reflexivity].
Defined.

Lemma askYesNoQuestion_result_witness :
  askYesNoQuestion (H := Sample.constants) 1 "Continue?" "" 5 "y"
    {| outputLevel := 4; outputStream := ""; lastTimedOutput := -1 |}
    (Sample.interactive ["n"])
  = (Returns true, Sample.interactive ["n"]).
Proof.
  destruct (askYesNoQuestion_result (H := Sample.constants) 1 "Continue?" "" 5 "y"
              {| outputLevel := 4; outputStream := ""; lastTimedOutput := -1 |}
              (Sample.interactive ["n"])) as [Hquiet _].
  rewrite Hquiet by (simpl; lia). reflexivity.
Defined.

Lemma finish_message_length_witness :
  ∃ text,
    cout (finishTimedOutput 107 4
            ({| outputLevel := 4; outputStream := ""; lastTimedOutput := 100 |},
             Sample.interactive [])).2 = [] ++ [text]
    ∧ String.length text = FINISH_MESSAGE_LENGTH
    ∧ outputStream
        (finishTimedOutput 107 4
           ({| outputLevel := 4; outputStream := ""; lastTimedOutput := 100 |},
            Sample.interactive [])).1 = "".
Proof.
  apply (finish_message_length 107 4
           {| outputLevel := 4; outputStream := ""; lastTimedOutput := 100 |}
           (Sample.interactive []));
    [reflexivity|simpl; lia|simpl; lia].
Defined.

Lemma timed_line_width_witness :
  ∃ state first second,
    timedOutput (H0 := sample_output) "Calculating solutions" 4 1 false 0 100
      ({| outputLevel := 4; outputStream := ""; lastTimedOutput := -1 |},
       Sample.interactive [])
    = Some state
    ∧ cout (finishTimedOutput 112 4 state).2 = [] ++ [first; second]
    ∧ (Z.of_nat (String.length first + String.length second) = 60)%Z.
Proof.
  apply (timed_line_width (H0 := sample_output) "Calculating solutions" 4 1 false 0 100 112
           {| outputLevel := 4; outputStream := ""; lastTimedOutput := -1 |}
           (Sample.interactive []));
    cbv [INDENT_WIDTH STANDARD_CMD_WIDTH sample_output FINISH_MESSAGE_LENGTH];
    [reflexivity|simpl; lia|left; simpl; lia|simpl; lia|simpl; lia|lia].
Defined.

Lemma quiet_above_the_level_witness :
  suspendTimedOutputs 4
    ({| outputLevel := 0; outputStream := ""; lastTimedOutput := -1 |},
     Sample.interactive [])
  = ({| outputLevel := 0; outputStream := ""; lastTimedOutput := -1 |},
     Sample.interactive []).
Proof.
  destruct (quiet_above_the_level (H0 := sample_output) "Done" 4 0 true 0 0
              {| outputLevel := 0; outputStream := ""; lastTimedOutput := -1 |}
              (Sample.interactive [])) as (_ & _ & _ & Hsuspend & _); [simpl; lia|].
  exact Hsuspend.
Defined.

(** ** More on the parser and the two commands *)

Lemma split_loop_extends (separator target : string) (fuel start : nat)
    (output result : list string) :
  split_loop fuel target separator start output = Returns result →
  ∃ more, result = output ++ more.
Proof.
  revert start output. induction fuel as [|fuel IH]; intros start output;
    [by cbn [split_loop]; destruct (_ && _)|].
  cbn [split_loop]. destruct (Std.substr target start _) as [piece| | |]; try done.
  cbn [result_bind].
  destruct (Std.find target separator start) as [occ|].
  - intros Hrun. apply IH in Hrun as [more ->].
    destruct (_ || _); [|by exists more].
    exists (piece :: more). by rewrite <- app_assoc.
  - intros [= <-]. destruct (_ || _); [by eexists|].
    exists []. by rewrite app_nil_r.
Qed.

Lemma split_not_empty (target separator : string) (pieces : list string) :
  split target separator = Returns pieces → 0 < length pieces.
Proof.
  unfold split. cbn [split_loop]. unfold Std.substr. simpl.
  destruct (Std.find target separator 0) as [occ|].
  - intros Hrun. apply split_loop_extends in Hrun as [more ->]. simpl. lia.
  - intros [= <-]. simpl. lia.
Qed.

Lemma stoi_of_one_character (text : string) (value : Z) :
  String.length text ≤ 1 → Std.stoi text = Returns value → (0 ≤ value ≤ 9)%Z.
Proof.
  destruct text as [|c [|d text]]; simpl; [done| |lia].
  intros _. destruct c as [[] [] [] [] [] [] [] []]; vm_compute;
    intros [= <-] || discriminate; split; discriminate.
Qed.

Section ParserMore.
Context `{Constants} `{Databases}.

(** X13.  A hero token with a separator of one character is read as the
    name in front of the first separator and the level behind it.  The
    level is parsed first, so a level that [stoi] rejects ends the call
    with the exception of [stoi]; a name that is not the base name of a
    template ends it with [out_of_range]; otherwise the first template of
    that base name is returned with the level, which may be 0 or
    negative. *)
Theorem parseHeroString_reads (heroName levelText : string) (colon : ascii) :
  HEROLEVEL_SEPARATOR = String colon "" →
  Std.find heroName HEROLEVEL_SEPARATOR 0 = None →
  parseHeroString (heroName +:+ HEROLEVEL_SEPARATOR +:+ levelText)
  = let* heroLevel := Std.stoi levelText in
    match List.find (fun hero => String.eqb (baseName hero) heroName) baseHeroes with
    | Some hero => Returns (hero, heroLevel)
    | None => Throws out_of_range
    end.
Proof.
  intros Hcolon Hclean. unfold parseHeroString. rewrite Hcolon in *.
  change (String colon "" +:+ levelText) with (String colon levelText).
  rewrite (find_after_clean_prefix heroName levelText colon Hclean).
  unfold Std.substr, position_after. rewrite string_app_length. cbn [String.length].
  destruct (Nat.ltb_spec (String.length heroName + S (String.length levelText)) 0); [lia|].
  destruct (Nat.ltb_spec (String.length heroName + S (String.length levelText))
              (String.length heroName + 1)); [lia|].
  cbn [result_bind default from_option id]. unfold default. cbn [from_option id].
  rewrite substring_app_front.
  replace (heroName +:+ String colon levelText)
    with ((heroName +:+ String colon "") +:+ levelText)
    by (by rewrite string_app_assoc).
  replace (String.length heroName + 1)
    with (String.length (heroName +:+ String colon ""))
    by (rewrite string_app_length; simpl; lia).
  rewrite substring_app_skip.
  replace (String.length heroName + S (String.length levelText)
           - String.length (heroName +:+ String colon ""))
    with (String.length levelText)
    by (rewrite string_app_length; simpl; lia).
  by rewrite substring_whole.
Qed.

Lemma army_loop_length (names : list string) (army army' : Army) (w w' : World) :
  makeArmyFromStrings_loop names army w = (Returns army', w') →
  length (monsters army') = length (monsters army) + length names
  ∧ (length (monsters army) ≤ ARMY_MAX_SIZE → length (monsters army') ≤ ARMY_MAX_SIZE).
Proof.
  revert army w. induction names as [|stringMonster names IH]; intros army w.
  - intros [= <- _]. simpl. lia.
  - cbn [makeArmyFromStrings_loop]. unfold M_bind at 1.
    match goal with |- context [match ?m w with _ => _ end] =>
      destruct (m w) as [[unit| | |] w1] end; try done.
    unfold M_bind at 1. unfold lift, Army_add.
    destruct (Nat.ltb_spec (length (monsters army)) ARMY_MAX_SIZE) as [Hroom|Hfull];
      [|done].
    intros Hrest. apply IH in Hrest as [Hlength Hbound]. simpl in Hlength, Hbound.
    rewrite length_app in Hlength, Hbound. simpl in Hlength, Hbound. simpl.
    split; [lia|]. intros _. apply Hbound. lia.
Qed.

(** X14.  Every instance that [makeInstanceFromString] returns has
    [targetSize] equal to the unit count of its target, which is at most
    [ARMY_MAX_SIZE].  A token that does not start with the quest prefix
    allows [ARMY_MAX_SIZE] combatants; it has at least one and at most
    [ARMY_MAX_SIZE] pieces, and its target has one unit for each of them.
    For a token that starts with the quest prefix the tier is one
    character, a digit from 0 to 9, and [maxCombatants] is
    [ARMY_MAX_SIZE - (tier - 1)]: tier 0 is not refused. *)
Theorem instance_invariants (instanceString : string) (w : World)
    (instance : Instance) (w' : World) :
  makeInstanceFromString instanceString w = (Returns instance, w') →
  targetSize instance = monsterAmount (target instance)
  ∧ (0 ≤ targetSize instance ≤ Z.of_nat ARMY_MAX_SIZE)%Z
  ∧ (substring 0 (String.length QUEST_PREFIX) instanceString ≠ QUEST_PREFIX →
     maxCombatants instance = Z.of_nat ARMY_MAX_SIZE
     ∧ ∃ pieces,
         split instanceString ELEMENT_SEPARATOR = Returns pieces
         ∧ 1 ≤ length pieces ≤ ARMY_MAX_SIZE
         ∧ targetSize instance = Z.of_nat (length pieces))
  ∧ (substring 0 (String.length QUEST_PREFIX) instanceString = QUEST_PREFIX →
     ∃ tier, (0 ≤ tier ≤ 9)%Z
             ∧ maxCombatants instance = (Z.of_nat ARMY_MAX_SIZE - (tier - 1))%Z).
Proof.
  unfold makeInstanceFromString.
  destruct (String.eqb_spec (substring 0 (String.length QUEST_PREFIX) instanceString)
              QUEST_PREFIX) as [Hquest|Hraw].
  - unfold M_bind, lift.
    destruct (Std.substr instanceString (String.length QUEST_PREFIX) _)
      as [questText| | |]; try done.
    destruct (Std.stoi questText) as [questNumber| | |]; try done.
    destruct (quests_at questNumber) as [lineup| | |]; try done.
    destruct (makeArmyFromStrings lineup w) as [[army| | |] w1] eqn:Harmy; try done.
    unfold Std.substr.
    destruct (String.length instanceString <? _); try done.
    destruct (Std.stoi (substring _ _ instanceString)) as [tier| | |] eqn:Htier; try done.
    intros [= <- <-]. simpl. split; [done|].
    apply army_loop_length in Harmy as [_ Hbound]. simpl in Hbound.
    split; [unfold monsterAmount; lia|]. split; [done|]. intros _.
    exists tier. split; [|done].
    apply stoi_of_one_character in Htier; [lia|].
    rewrite substring_length. apply Nat.le_min_l.
  - unfold M_bind, lift.
    destruct (split instanceString ELEMENT_SEPARATOR) as [pieces| | |] eqn:Hsplit;
      try done.
    destruct (makeArmyFromStrings pieces w) as [[army| | |] w1] eqn:Harmy; try done.
    intros [= <- <-]. simpl. split; [done|].
    apply army_loop_length in Harmy as [Hlength Hbound]. simpl in Hlength, Hbound.
    pose proof (split_not_empty _ _ _ Hsplit).
    split; [unfold monsterAmount; lia|]. split; [|done]. intros _.
    split; [done|]. exists pieces. split; [done|].
    unfold monsterAmount. rewrite Hlength. lia.
Qed.

(** X15.  A lineup of at most [ARMY_MAX_SIZE] names without a hero
    separator is looked up name by name in the monster map: the army
    holds the indices in the order of the names, and the first name that
    the map does not hold ends the call with [out_of_range].  The state
    of the process is not touched in either case. *)
Theorem plain_lineup (names : list string) (w : World) :
  Forall (fun stringMonster => Std.find stringMonster HEROLEVEL_SEPARATOR 0 = None) names →
  length names ≤ ARMY_MAX_SIZE →
  makeArmyFromStrings names w
  = (match mapM (fun stringMonster => monsterMap !! stringMonster) names with
     | Some indices => Returns {| monsters := indices |}
     | None => Throws out_of_range
     end, w).
Proof.
  intros Hplain Hroom. unfold makeArmyFromStrings.
  assert (Hloop : ∀ army,
            length (monsters army) + length names ≤ ARMY_MAX_SIZE →
            makeArmyFromStrings_loop names army w
            = (match mapM (fun stringMonster => monsterMap !! stringMonster) names with
               | Some indices => Returns {| monsters := monsters army ++ indices |}
               | None => Throws out_of_range
               end, w)); [|by rewrite Hloop].
  clear Hroom. induction Hplain as [|stringMonster names Hname _ IH]; intros army Hroom.
  - simpl. unfold M_ret. destruct army. simpl. by rewrite app_nil_r.
  - cbn [makeArmyFromStrings_loop]. rewrite Hname. unfold M_bind at 1.
    cbn [mapM]. destruct (monsterMap !! stringMonster) as [index|]; [|done].
    unfold M_ret, M_bind, lift, Army_add. simpl in Hroom.
    destruct (Nat.ltb_spec (length (monsters army)) ARMY_MAX_SIZE) as [_|Hfull]; [|lia].
    rewrite IH by (simpl; rewrite length_app; simpl; lia). simpl.
    destruct (mapM _ names) as [indices|]; simpl; [|done].
    by rewrite <- app_assoc.
Qed.

(** X16.  [takeInstanceInput] never returns an empty vector: a line,
    the empty line included, has at least one token, and every token of
    the accepted line gave an instance. *)
Theorem instances_not_empty (fuel : nat) (prompt : string) (w : World)
    (instances : list Instance) (w' : World) :
  takeInstanceInput fuel prompt w = (Returns instances, w') →
  0 < length instances.
Proof.
  intros Hcall.
  apply instance_call_inversion in Hcall as (fuel' & w0 & input & w1 & tokens & _ & Hsplit & Hturn).
  rewrite (parsed_in_turn_length _ _ _ _ Hturn).
  by apply (split_not_empty input TOKEN_SEPARATOR).
Qed.

(** X17.  On a console that has nothing left [takeHerolevelInput] ends
    by itself: the two reads give two blank answers, and the command
    returns without a hero. *)
Theorem hero_levels_on_exhausted_console (fuel : nat) (w : World) :
  COMMENT_DELIMITOR ≠ "" → TOKEN_SEPARATOR ≠ "" →
  useMacroFile w = false →
  pending (cin w) = [] → partial (cin w) = "" →
  (takeHerolevelInput (fuel + 3) w).1 = Returns [].
Proof.
  intros Hcomment Htoken Hoff Hpending Hpartial.
  assert (Hask : ∀ f query w0,
            useMacroFile w0 = false → pending (cin w0) = [] → partial (cin w0) = "" →
            ∃ w1, getResistantInput (S f) query heroInputHelp rawFirst w0
                  = (Returns "", w1)
                  ∧ useMacroFile w1 = false ∧ pending (cin w1) = []
                  ∧ partial (cin w1) = "").
  { intros f query w0 Hoff0 Hpending0 Hpartial0.
    destruct (exhausted_round query heroInputHelp rawFirst w0) as (w1 & Hround & ?);
      try done.
    exists w1. split; [|done]. unfold getResistantInput. simpl. unfold M_bind.
    by rewrite Hround. }
  unfold takeHerolevelInput. rewrite Hoff. simpl negb. cbn [orb].
  set (w0 := print endl _).
  replace (fuel + 3) with (S (S (S fuel))) by lia.
  rewrite hero_loop_unfold.
  destruct (Hask (S fuel) ("Enter Hero " +:+ Std.to_string (Z.of_nat (length (@nil Z) + 1))
                           +:+ ": ") w0) as (w1 & -> & Hoff1 & Hpending1 & Hpartial1);
    try done.
  cbn [takeHerolevelInput_entry String.eqb M_ret]. simpl negb. cbn [andb Z.add Z.ltb Z.compare].
  rewrite hero_loop_unfold.
  destruct (Hask fuel ("Enter Hero " +:+ Std.to_string (Z.of_nat (length (@nil Z) + 1))
                       +:+ ": ") w1) as (w2 & -> & _); try done.
Qed.

End ParserMore.

Lemma parseHeroString_reads_witness :
  parseHeroString (H := Sample.constants) (H0 := Sample.databases) "hero2:-3"
  = Returns (Sample.hero2, (-3)%Z).
Proof.
  exact (parseHeroString_reads (H := Sample.constants) (H0 := Sample.databases)
           "hero2" "-3" ":" eq_refl eq_refl).
Defined.

(** [q3-0]: tier 0 allows one combatant more than an army holds. *)
Lemma instance_invariants_witness :
  (0 ≤ 2 ≤ Z.of_nat (@ARMY_MAX_SIZE Sample.constants))%Z
  ∧ ∃ tier, (0 ≤ tier ≤ 9)%Z
            ∧ 7%Z = (Z.of_nat (@ARMY_MAX_SIZE Sample.constants) - (tier - 1))%Z.
Proof.
  destruct (instance_invariants (H := Sample.constants) (H0 := Sample.databases)
              "q3-0" (Sample.interactive [])
              {| target := {| monsters := [0%Z; 1%Z] |}; maxCombatants := 7;
                 targetSize := 2 |}
              (Sample.interactive [])) as (_ & Hbound & _ & Hquest);
    [vm_compute; reflexivity|].
  split; [exact Hbound|]. apply Hquest. reflexivity.
Defined.

Lemma plain_lineup_witness :
  makeArmyFromStrings (H := Sample.constants) (H0 := Sample.databases)
    ["wolf"; "dragon"; "panda"] (Sample.interactive [])
  = (Throws out_of_range, Sample.interactive []).
Proof.
  apply (plain_lineup (H := Sample.constants) (H0 := Sample.databases)
           ["wolf"; "dragon"; "panda"] (Sample.interactive [])).
  - repeat constructor.
  - vm_compute. lia.
Defined.

Lemma instances_not_empty_witness : 0 < 1.
Proof.
  apply (instances_not_empty (H := Sample.constants) (H0 := Sample.databases) 3 "Lineup: "
           (Sample.interactive [""; "panda"])
           [ {| target := {| monsters := [0%Z] |}; maxCombatants := 6%Z;
                targetSize := 1%Z |} ]
           (takeInstanceInput (H := Sample.constants) (H0 := Sample.databases) 3 "Lineup: "
              (Sample.interactive [""; "panda"])).2).
  vm_compute. reflexivity.
Defined.

Lemma hero_levels_on_exhausted_console_witness :
  (takeHerolevelInput (H := Sample.constants) (H0 := Sample.databases) (0 + 3)
     (Sample.interactive [])).1 = Returns [].
Proof.
  apply (hero_levels_on_exhausted_console (H := Sample.constants) (H0 := Sample.databases)
           0 (Sample.interactive []));
    (discriminate || reflexivity).
Defined.

(** ** More on the replay encoder *)

Lemma replay_scan_last (matches : Monster → bool) (encode : nat → Z)
    (before : list Monster) (entry : Monster) (after : list Monster)
    (i : nat) (index : Z) :
  matches entry = true →
  Forall (fun later => matches later = false) after →
  replay_scan matches encode (before ++ entry :: after) i index
  = encode (i + length before).
Proof.
  intros Hentry Hafter. revert i index.
  induction before as [|first before IH]; intros i index; simpl.
  - rewrite Hentry, Nat.add_0_r. apply replay_scan_no_match.
    intros j later Hj. by apply (Forall_lookup_1 _ _ _ _ Hafter Hj).
  - rewrite IH. f_equal. lia.
Qed.

Section ReplayMore.
Context `{Constants} `{Databases}.

(** X18.  The number that [getReplayMonsterNumber] prints.  For an
    ordinary unit it is the position of the last entry of the canonical
    list with the name of the unit, and for a hero [-(position + 2)] for
    the last template with its base name (the loops do not stop at the
    first match), both narrowed to an [int8_t].  A unit that its table
    does not name is printed as the empty slot. *)
Theorem replay_number_of_a_unit (unit : Monster) :
  (∀ before entry after,
     is_hero (rarity unit) = false →
     monsterBaseList = before ++ entry :: after →
     name entry = name unit →
     Forall (fun later => name later ≠ name unit) after →
     getReplayMonsterNumber unit
     = Std.to_string (Std.to_int8 (Z.of_nat (length before))))
  ∧ (∀ before hero after,
       is_hero (rarity unit) = true →
       baseHeroes = before ++ hero :: after →
       baseName hero = baseName unit →
       Forall (fun later => baseName later ≠ baseName unit) after →
       getReplayMonsterNumber unit
       = Std.to_string (Std.to_int8 (- Z.of_nat (length before) - 2)))
  ∧ ((if is_hero (rarity unit)
      then Forall (fun hero => baseName hero ≠ baseName unit) baseHeroes
      else Forall (fun entry => name entry ≠ name unit) monsterBaseList) →
     getReplayMonsterNumber unit = Std.to_string (Std.to_int8 REPLAY_EMPTY_SPOT)).
Proof.
  unfold getReplayMonsterNumber. split; [|split].
  - intros before entry after -> -> Hname Hafter.
    rewrite replay_scan_last; [done|by apply String.eqb_eq|].
    eapply Forall_impl; [exact Hafter|]. intros later Hne.
    apply String.eqb_neq. congruence.
  - intros before hero after -> -> Hname Hafter.
    rewrite replay_scan_last; [done|by apply String.eqb_eq|].
    eapply Forall_impl; [exact Hafter|]. intros later Hne.
    by apply String.eqb_neq.
  - destruct (is_hero (rarity unit)); intros Hnone;
      rewrite replay_scan_no_match; try done;
      intros j entry Hj; apply String.eqb_neq;
      pose proof (Forall_lookup_1 _ _ _ _ Hnone Hj); congruence.
Qed.

Lemma setup_slot_resolved (w : World) (setup : Army) (units : list Monster) (i : nat) :
  resolves w setup units →
  getReplaySetup_slot setup i w = Returns (setup_slot_text units i).
Proof.
  intros Hres. unfold getReplaySetup_slot, setup_slot_text.
  rewrite (resolves_length w setup units Hres).
  destruct (Nat.ltb_spec (i mod ARMY_MAX_SIZE) (length units)) as [Hin|Hout].
  - destruct (Z.ltb_spec (Z.of_nat (i mod ARMY_MAX_SIZE)) (Z.of_nat (length units)));
      [|lia].
    replace (Z.to_nat (Z.of_nat (length units) - Z.of_nat (i mod ARMY_MAX_SIZE) - 1))
      with (length units - i mod ARMY_MAX_SIZE - 1) by lia.
    destruct (lookup_lt_is_Some_2 units (length units - i mod ARMY_MAX_SIZE - 1))
      as [unit Hunit]; [lia|].
    rewrite Hunit.
    destruct (Forall2_lookup_r _ _ _ _ _ Hres Hunit) as (index & -> & ->). done.
  - by destruct (Z.ltb_spec (Z.of_nat (i mod ARMY_MAX_SIZE)) (Z.of_nat (length units)));
      [lia|].
Qed.

Lemma setup_loop_texts (w : World) (setup : Army) (units : list Monster)
    (remaining i : nat) (stringSetup : string) :
  resolves w setup units →
  i + remaining = ARMY_MAX_SIZE * TOURNAMENT_LINES →
  getReplaySetup_loop remaining i setup stringSetup w
  = Returns (stringSetup
             +:+ comma_separated (map (setup_slot_text units) (seq i remaining))).
Proof.
  intros Hres. revert i stringSetup.
  induction remaining as [|remaining IH]; intros i stringSetup Hlen.
  - simpl. by rewrite string_app_empty_r.
  - cbn [getReplaySetup_loop]. rewrite (setup_slot_resolved w setup units i Hres).
    cbn [result_bind seq map]. destruct remaining as [|remaining].
    + by destruct (Nat.ltb_spec i (ARMY_MAX_SIZE * TOURNAMENT_LINES - 1)); [lia|].
    + destruct (Nat.ltb_spec i (ARMY_MAX_SIZE * TOURNAMENT_LINES - 1)); [|lia].
      rewrite IH by lia.
      rewrite (comma_separated_cons _ (map _ (seq (S i) (S remaining)))) by done.
      by rewrite !string_app_assoc.
Qed.

(** X19.  For an army whose indices are all in the registry
    [getReplaySetup] always returns, whatever the tables hold: the text
    is an array of [ARMY_MAX_SIZE * TOURNAMENT_LINES] slot texts, and the
    text of a slot depends on its column only, so that every line of the
    grid repeats the first one. *)
Theorem replay_setup_text (w : World) (setup : Army) (units : list Monster) :
  resolves w setup units →
  getReplaySetup setup w
  = Returns ("[" +:+ comma_separated
                       (map (setup_slot_text units)
                          (seq 0 (ARMY_MAX_SIZE * TOURNAMENT_LINES)))
             +:+ "]")
  ∧ ∀ i, setup_slot_text units (i + ARMY_MAX_SIZE) = setup_slot_text units i.
Proof.
  intros Hres. split.
  - unfold getReplaySetup. rewrite (setup_loop_texts w setup units) by done.
    simpl. by rewrite string_app_assoc.
  - intros i. unfold setup_slot_text.
    destruct ARMY_MAX_SIZE as [|size] eqn:Hsize.
    + by rewrite Nat.add_0_r.
    + replace (i + S size) with (i + 1 * S size) by lia.
      by rewrite Nat.Div0.mod_add.
Qed.

(** X20.  For two armies whose indices are all in the registry
    [makeBattleReplay] always returns a token: the encoding of the object
    with the clock as date, the two setups and the two arrays of hero
    levels. *)
Theorem battle_replay_returns (w : World) (friendly hostile : Army)
    (friends foes : list Monster) :
  resolves w friendly friends →
  resolves w hostile foes →
  makeBattleReplay friendly hostile w
  = Returns
      (base64_encode
         (replay_object (clock w)
            ("[" +:+ comma_separated
                       (map (setup_slot_text friends)
                          (seq 0 (ARMY_MAX_SIZE * TOURNAMENT_LINES))) +:+ "]")
            (array_text (spec_heroes friends))
            ("[" +:+ comma_separated
                       (map (setup_slot_text foes)
                          (seq 0 (ARMY_MAX_SIZE * TOURNAMENT_LINES))) +:+ "]")
            (array_text (spec_heroes foes)))).
Proof.
  intros Hfriends Hfoes.
  assert (Hheroes : ∀ setup units,
            resolves w setup units →
            getReplayHeroes setup w = Returns (array_text (spec_heroes units))).
  { intros setup units Hres. unfold getReplayHeroes, array_text, spec_heroes.
    rewrite (heroes_loop_text w setup units baseHeroes 0 "[" Hres) by done.
    simpl. by rewrite string_app_assoc. }
  assert (Hsetup : ∀ setup units,
            resolves w setup units →
            getReplaySetup setup w
            = Returns ("[" +:+ comma_separated
                                 (map (setup_slot_text units)
                                    (seq 0 (ARMY_MAX_SIZE * TOURNAMENT_LINES)))
                       +:+ "]")).
  { intros setup units Hres. unfold getReplaySetup.
    rewrite (setup_loop_texts w setup units) by done.
    simpl. by rewrite string_app_assoc. }
  unfold makeBattleReplay.
  by rewrite (Hsetup _ _ Hfriends), (Hheroes _ _ Hfriends), (Hsetup _ _ Hfoes),
    (Hheroes _ _ Hfoes).
Qed.

End ReplayMore.

(** Two entries of the canonical list with one name: the second one
    gives the number. *)
Lemma replay_number_of_a_unit_witness :
  getReplayMonsterNumber (H := Sample.constants)
    (H0 := {| baseHeroes := []; monsterBaseList := [Sample.wolf; Sample.panda; Sample.wolf];
              quests := []; monsterMap := ∅ |})
    Sample.wolf
  = "2".
Proof.
  destruct (replay_number_of_a_unit (H := Sample.constants)
              (H0 := {| baseHeroes := [];
                        monsterBaseList := [Sample.wolf; Sample.panda; Sample.wolf];
                        quests := []; monsterMap := ∅ |})
              Sample.wolf) as (Hmonster & _).
  apply (Hmonster [Sample.wolf; Sample.panda] Sample.wolf []); (reflexivity || constructor).
Defined.

Lemma replay_setup_text_witness :
  getReplaySetup (H := Sample.constants) (H0 := Sample.databases)
    {| monsters := [1%Z; 0%Z] |} (Sample.interactive [])
  = Returns "[0,1,-1,-1,-1,-1,0,1,-1,-1,-1,-1,0,1,-1,-1,-1,-1,0,1,-1,-1,-1,-1,0,1,-1,-1,-1,-1]".
Proof.
  destruct (replay_setup_text (H := Sample.constants) (H0 := Sample.databases)
              (Sample.interactive []) {| monsters := [1%Z; 0%Z] |}
              [Sample.wolf; Sample.panda]) as [Htext _]; [repeat constructor|].
  exact Htext.
Defined.

Lemma battle_replay_returns_witness :
  ∃ token,
    makeBattleReplay (H := Sample.constants) (H0 := Sample.databases)
      {| monsters := [0%Z; 1%Z] |} {| monsters := [1%Z] |} (Sample.interactive [])
    = Returns token.
Proof.
  eexists.
  apply (battle_replay_returns (H := Sample.constants) (H0 := Sample.databases)
           (Sample.interactive []) {| monsters := [0%Z; 1%Z] |} {| monsters := [1%Z] |}
           [Sample.panda; Sample.wolf] [Sample.wolf]);
    repeat constructor.
Defined.

(** ** The end of a macro file, and timed messages in a row *)

Section ScriptEnd.
Context `{Constants}.

(** X21.  When the macro file has nothing left, the next query is asked
    on the console: the query is printed, the line of the console is
    normalized and checked as usual, and script mode is off afterwards. *)
Theorem exhausted_script_asks_console (fuel : nat) (query help : string)
    (queryType : QueryType) (w : World) (line : string) (rest : list string)
    (inputString firstToken text : string) :
  useMacroFile w = true →
  good (macroFile w) = true →
  pending (macroFile w) = [] → partial (macroFile w) = "" →
  good (cin w) = true → pending (cin w) = line :: rest →
  normalize line = Returns (inputString, firstToken) →
  firstToken ≠ "help" →
  answer queryType inputString firstToken = Some text →
  ∃ w',
    getResistantInput (S fuel) query help queryType w = (Returns text, w')
    ∧ useMacroFile w' = false
    ∧ cout w' = cout w ++ [query]
    ∧ pending (cin w') = rest.
Proof.
  intros Hon Hgood Hpending Hpartial Hconsole Hline Hnormal Hne Hanswer.
  unfold getResistantInput.
  rewrite (loop_failed fuel query help queryType "" w
             {| pending := []; partial := ""; eofbit := true; failbit := true |} "" Hon)
    by (unfold getline; by rewrite Hgood, Hpending, Hpartial).
  unfold good in Hconsole. apply andb_true_iff in Hconsole as [Heof Hfail].
  apply negb_true_iff in Heof, Hfail.
  cbn [getResistantInput_loop]. unfold M_bind.
  erewrite console_round; [|done..]. rewrite Hanswer.
  eexists. split; [done|]. done.
Qed.

(** X22.  The last line of a macro file counts even when no line break
    follows it: it is read and answered like any other line, and script
    mode stays on until the next read. *)
Theorem last_line_without_line_break (fuel : nat) (query help : string)
    (queryType : QueryType) (w : World) (inputString firstToken text : string) :
  useMacroFile w = true →
  good (macroFile w) = true →
  pending (macroFile w) = [] → partial (macroFile w) ≠ "" →
  normalize (partial (macroFile w)) = Returns (inputString, firstToken) →
  firstToken ≠ "help" →
  answer queryType inputString firstToken = Some text →
  ∃ w',
    getResistantInput (S fuel) query help queryType w = (Returns text, w')
    ∧ useMacroFile w' = true
    ∧ good (macroFile w') = false
    ∧ cin w' = cin w.
Proof.
  intros Hon Hgood Hpending Hpartial Hnormal Hne Hanswer.
  unfold getResistantInput. cbn [getResistantInput_loop]. unfold M_bind.
  unfold getResistantInput_round, read_line. rewrite Hon.
  unfold getline. rewrite Hgood, Hpending. simpl.
  destruct (String.eqb_spec (partial (macroFile w)) "") as [?|_]; [done|]. simpl.
  destruct (showQueries w) eqn:Hshow; simpl; rewrite Hnormal;
    (destruct (String.eqb_spec firstToken "help") as [?|_]; [done|]);
    rewrite Hanswer; unfold echo_line; simpl; rewrite Hshow; by eexists.
Qed.

End ScriptEnd.

Section TimedMessages.
Context `{Constants} `{OutputConstants}.

(** X23.  Timed messages in a row.  The first timed message of a new
    manager is printed alone, and the manager asks on the console.  A
    timed message that follows another one, without [reset], first ends
    the one before with the seconds since it started and then prints
    itself; with [reset] it prints itself only. *)
Theorem timed_messages_in_a_row (first second : string) (urgency indent : Z)
    (reset : bool) (start finish next : Z) (w : World) :
  (urgency ≤ BASIC_OUTPUT)%Z →
  (0 ≤ indent * INDENT_WIDTH)%Z →
  (0 ≤ start)%Z →
  let width := (STANDARD_CMD_WIDTH - Z.of_nat FINISH_MESSAGE_LENGTH)%Z in
  let blanks := spaces (Z.to_nat (indent * INDENT_WIDTH)) in
  ∃ state state',
    timedOutput first urgency indent false 0 start (IOManager_new w) = Some state
    ∧ useMacroFile state.2 = false
    ∧ cout state.2 = cout w ++ [setw_left width (blanks +:+ first)]
    ∧ timedOutput second urgency indent reset finish next state = Some state'
    ∧ cout state'.2
      = cout state.2
        ++ (if reset then []
            else ["Done! (" +:+ setw_right 3 (Std.to_string (finish - start))
                  +:+ " seconds)" +:+ endl])
        ++ [setw_left width (blanks +:+ second)]
    ∧ lastTimedOutput state'.1 = next.
Proof.
  intros Hloud Hindent Hstart width blanks.
  assert (Hstep : ∀ message flag time last screen,
            ((0 <=? last)%Z && negb flag = false) →
            timedOutput message urgency indent flag finish time
              ({| outputLevel := BASIC_OUTPUT; outputStream := "";
                  lastTimedOutput := last |}, screen)
            = Some ({| outputLevel := BASIC_OUTPUT; outputStream := "";
                       lastTimedOutput := time |},
                    print (setw_left width (blanks +:+ message)) screen)).
  { intros message flag time last screen Hskip.
    unfold timedOutput, getIndent. cbn [fst lastTimedOutput]. rewrite Hskip.
    destruct (Z.ltb_spec (indent * INDENT_WIDTH) 0); [lia|].
    unfold printBuffer, shouldOutput. simpl.
    by destruct (Z.leb_spec urgency BASIC_OUTPUT); [|lia]. }
  assert (Hfirst : timedOutput first urgency indent false 0 start (IOManager_new w)
                   = Some ({| outputLevel := BASIC_OUTPUT; outputStream := "";
                              lastTimedOutput := start |},
                           print (setw_left width (blanks +:+ first))
                             (IOManager_new w).2)).
  { unfold timedOutput, IOManager_new, getIndent. cbn [fst lastTimedOutput].
    destruct (Z.ltb_spec (indent * INDENT_WIDTH) 0); [lia|].
    unfold printBuffer, shouldOutput. simpl.
    by destruct (Z.leb_spec urgency BASIC_OUTPUT); [|lia]. }
  destruct reset.
  - eexists _, _. split; [exact Hfirst|]. split; [done|]. split; [done|].
    rewrite Hstep by (by rewrite andb_false_r). by split.
  - eexists _, _. split; [exact Hfirst|]. split; [done|]. split; [done|].
    unfold timedOutput, getIndent. cbn [fst lastTimedOutput negb].
    destruct (Z.leb_spec 0 start); [|lia]. cbn [andb].
    destruct (Z.ltb_spec (indent * INDENT_WIDTH) 0); [lia|].
    unfold finishTimedOutput, printBuffer, shouldOutput. simpl.
    destruct (Z.leb_spec urgency BASIC_OUTPUT); [|lia].
    split; [done|]. split; [|done]. simpl. by rewrite <- !app_assoc.
Qed.

End TimedMessages.

Lemma exhausted_script_asks_console_witness :
  ∃ w',
    getResistantInput (H := Sample.constants) 1 "Tier: " "" integer
      (Sample.scripted [] ["3 // typed"])
    = (Returns "3", w')
    ∧ useMacroFile w' = false
    ∧ cout w' = [] ++ ["Tier: "]
    ∧ pending (cin w') = [].
Proof.
  apply (exhausted_script_asks_console (H := Sample.constants) 0 "Tier: " "" integer
           (Sample.scripted [] ["3 // typed"]) "3 // typed" [] "3 " "3" "3");
    (discriminate || (vm_compute; reflexivity)).
Defined.

Lemma last_line_without_line_break_witness :
  ∃ w',
    getResistantInput (H := Sample.constants) 1 "Lineup: " "" raw
      (set_macroFile {| pending := []; partial := "Panda"; eofbit := false;
                        failbit := false |}
         (Sample.scripted [] []))
    = (Returns "panda", w')
    ∧ useMacroFile w' = true
    ∧ good (macroFile w') = false
    ∧ cin w' = Sample.console [].
Proof.
  apply (last_line_without_line_break (H := Sample.constants) 0 "Lineup: " "" raw
           (set_macroFile {| pending := []; partial := "Panda"; eofbit := false;
                             failbit := false |}
              (Sample.scripted [] []))
           "panda" "panda" "panda");
    (discriminate || (vm_compute; reflexivity)).
Defined.

Lemma timed_messages_in_a_row_witness :
  ∃ state state',
    timedOutput (H0 := sample_output) "Reading" 4 0 false 0 100
      (IOManager_new (H0 := sample_output) (Sample.interactive [])) = Some state
    ∧ timedOutput (H0 := sample_output) "Solving" 4 0 false 107 107 state = Some state'
    ∧ cout state'.2
      = ["Reading                                 ";
         "Done! (  7 seconds)" +:+ endl;
         "Solving                                 "].
Proof.
  destruct (timed_messages_in_a_row (H0 := sample_output) "Reading" "Solving" 4 0 false
              100 107 107 (Sample.interactive []))
    as (state & state' & Hfirst & _ & Hscreen & Hsecond & Hcout & _);
    [by vm_compute..|].
  exists state, state'. split; [exact Hfirst|]. split; [exact Hsecond|].
  rewrite Hcout, Hscreen. vm_compute. reflexivity.
Defined.
